(** * ChunkingService: a shallow embedding of
      [backend/services/chunking_service.py] and the properties of its
      chunk numbering, splitting and record assembly.

    The file also embeds [DocumentParseService] of
    [backend/services/document_parse_service.py] (module [Parse]) and
    [SearchService.save_search_results] of
    [backend/services/search_service.py] (module [Search]).

    Python values are modelled as follows.
    - [str] is a sequence of Unicode code points, [list N];
      [py "..."] writes a literal.
    - [int] is [Z] (Python integers are unbounded).
    - a [dict] used as a map ([metadata]) is a [gmap]; the dicts with a
      fixed set of keys (page entries, chunks, chunk metadata, the returned
      document) are records.
    - an exception is a value of [exn]; a call returns an [outcome].
    - the one [while] loop of the module runs on fuel: [OutOfFuel] is the
      answer of a run that has not finished within the given number of
      iterations. *)

From Stdlib Require Import ZArith Lia DecimalString.
From stdpp Require Import base list strings gmap.

Open Scope Z_scope.

(** ** Python strings *)

Abbreviation str := (list N).

(** A literal: the code points of an ASCII string. *)
Definition py (s : string) : str :=
  map Ascii.N_of_ascii (String.list_ascii_of_string s).
Arguments py s%_string.

(** [Py_UNICODE_ISSPACE]: the characters [str.split()] and [str.strip()]
    treat as whitespace. *)
Definition isspace (c : N) : bool :=
  (((9 <=? c) && (c <=? 13)) || ((28 <=? c) && (c <=? 32))
   || (c =? 133) || (c =? 160) || (c =? 5760)
   || ((8192 <=? c) && (c <=? 8202))
   || (c =? 8232) || (c =? 8233) || (c =? 8239) || (c =? 8287)
   || (c =? 12288))%N.

(** [len(x)] as a Python integer. *)
Definition len {A} (l : list A) : Z := Z.of_nat (length l).

(** [s.lstrip()], [s.rstrip()], [s.strip()] without argument. *)
Fixpoint lstrip (s : str) : str :=
  match s with
  | [] => []
  | c :: s' => if isspace c then lstrip s' else s
  end.

Definition rstrip (s : str) : str := reverse (lstrip (reverse s)).

Definition strip (s : str) : str := rstrip (lstrip s).

(** Truth value of a string or a list: non-empty. *)
Definition truthy {A} (l : list A) : bool :=
  match l with [] => false | _ => true end.

(** [s.split()] without argument: the maximal runs of non-whitespace
    characters. [cur] is the run being read. *)
Fixpoint split_words (cur s : str) : list str :=
  match s with
  | [] => if truthy cur then [cur] else []
  | c :: s' =>
      if isspace c
      then (if truthy cur then [cur] else []) ++ split_words [] s'
      else split_words (cur ++ [c]) s'
  end.

Definition split (s : str) : list str := split_words [] s.

(** [s.split('\n\n')]: the pieces between the occurrences of two line feeds,
    found from left to right without overlap. [cur] is the piece being
    read. *)
Fixpoint split_blank_lines (cur s : str) : list str :=
  match s with
  | [] => [cur]
  | 10%N :: 10%N :: s' => cur :: split_blank_lines [] s'
  | c :: s' => split_blank_lines (cur ++ [c]) s'
  end.

(** [sep.join(l)]. *)
Fixpoint join (sep : str) (l : list str) : str :=
  match l with
  | [] => []
  | [x] => x
  | x :: l' => x ++ sep ++ join sep l'
  end.

(** [l[i:j]] for all integers [i], [j]: a negative index counts from the
    end, and both are clamped to [0 .. len l]. *)
Definition slice_index {A} (l : list A) (i : Z) : Z :=
  if i <? 0 then Z.max 0 (i + len l) else Z.min i (len l).

Definition slice {A} (l : list A) (i j : Z) : list A :=
  let a := slice_index l i in
  let b := slice_index l j in
  take (Z.to_nat (b - a)) (drop (Z.to_nat a) l).

(** [str(n)] for an integer. *)
Fixpoint str_of_uint (d : Decimal.uint) : str :=
  match d with
  | Decimal.Nil => []
  | Decimal.D0 d => 48%N :: str_of_uint d
  | Decimal.D1 d => 49%N :: str_of_uint d
  | Decimal.D2 d => 50%N :: str_of_uint d
  | Decimal.D3 d => 51%N :: str_of_uint d
  | Decimal.D4 d => 52%N :: str_of_uint d
  | Decimal.D5 d => 53%N :: str_of_uint d
  | Decimal.D6 d => 54%N :: str_of_uint d
  | Decimal.D7 d => 55%N :: str_of_uint d
  | Decimal.D8 d => 56%N :: str_of_uint d
  | Decimal.D9 d => 57%N :: str_of_uint d
  end.

Definition str_of_int (n : Z) : str :=
  match Z.to_int n with
  | Decimal.Pos d => str_of_uint d
  | Decimal.Neg d => 45%N :: str_of_uint d
  end.

(** ** Exceptions and outcomes *)

(** [ValueError msg] is raised by this module; [LibraryError] stands for an
    exception raised inside the text-splitting library. *)
Inductive exn : Type :=
  | ValueError (msg : str)
  | LibraryError (msg : str).

Inductive outcome (A : Type) : Type :=
  | Ok (a : A)
  | Raise (e : exn)
  | OutOfFuel.
Arguments Ok {A} a.
Arguments Raise {A} e.
Arguments OutOfFuel {A}.

(** Sequencing: an exception (or an unfinished run) of the first step is
    the outcome of the whole. *)
#[global] Instance outcome_ret : MRet outcome := fun A a => Ok a.
#[global] Instance outcome_bind : MBind outcome := fun A B k m =>
  match m with
  | Ok a => k a
  | Raise e => Raise e
  | OutOfFuel => OutOfFuel
  end.

(** [for x in l: acc = body(acc, x)], stopping at the first exception. *)
Fixpoint for_each {A S} (l : list A) (body : S -> A -> outcome S) (acc : S)
  : outcome S :=
  match l with
  | [] => Ok acc
  | x :: l' => acc' ← body acc x; for_each l' body acc'
  end.

(** ** The text-splitting library

    [RecursiveCharacterTextSplitter(chunk_size, chunk_overlap,
    separators).split_text(text)] belongs to the langchain package, not to
    this module. It is an interface here: every statement below holds for
    each implementation of it. The constructor and the call may raise. *)
Class RecursiveCharacterTextSplitter :=
  split_text : Z -> Z -> list str -> str -> outcome (list str).

(** ** Data model *)

(** An element of [page_map]: [{'page': ..., 'text': ...}]. *)
Record PageEntry := { page : Z; text : str }.

Record ChunkMetadata := {
  chunk_id : Z;
  page_number : Z;
  page_range : str;
  word_count : Z
}.

Record Chunk := { content : str; metadata : ChunkMetadata }.

(** The dict [chunk_text] returns. *)
Record DocumentRecord := {
  filename : str;
  total_chunks : Z;
  total_pages : Z;
  loading_method : str;
  chunking_method : str;
  timestamp : str;
  chunks : list Chunk
}.

(** ** The splitters

    Each splitter returns a list of dicts [{"text": t}]; the model carries
    the list of the [t]. *)

Definition avg_word_len : Z := 5.

Definition words_per_chunk (chunk_size : Z) : Z :=
  Z.max 1 (chunk_size / (avg_word_len + 1)).

Definition overlap_words (chunk_overlap : Z) : Z :=
  if chunk_overlap <=? 0 then 0
  else Z.max 0 (chunk_overlap / (avg_word_len + 1)).

(** The loop [while start < len(words): ...] of [_fixed_size_chunks], one
    unit of fuel per iteration. *)
Fixpoint fixed_size_loop (fuel : nat) (words : list str) (wpc ow : Z)
    (start : Z) (chunks : list str) : outcome (list str) :=
  match fuel with
  | O => OutOfFuel
  | S fuel' =>
      if start <? len words then
        let end_ := Z.min (len words) (start + wpc) in
        let chunk_text := join (py " ") (slice words start end_) in
        let chunks :=
          if truthy (strip chunk_text) then chunks ++ [chunk_text]
          else chunks in
        if end_ >=? len words then Ok chunks
        else fixed_size_loop fuel' words wpc ow (Z.max 0 (end_ - ow)) chunks
      else Ok chunks
  end.

Definition _fixed_size_chunks (fuel : nat) (text : str)
    (chunk_size chunk_overlap : Z) : outcome (list str) :=
  if chunk_size <=? 0 then Ok [text]
  else
    fixed_size_loop fuel (split text) (words_per_chunk chunk_size)
      (overlap_words chunk_overlap) 0 [].

Definition _paragraph_chunks (text : str) : list str :=
  map strip
    (List.filter (fun p => truthy (strip p)) (split_blank_lines [] text)).

Definition _sentence_chunks `{RecursiveCharacterTextSplitter} (text : str)
    (chunk_size chunk_overlap : Z) : outcome (list str) :=
  split_text chunk_size chunk_overlap
    [py "."; py "!"; py "?"; [10%N]; py " "] text.

(** The class body defines [_separator_chunks] twice with the same text;
    the second definition is the one in force. *)
Definition _separator_chunks `{RecursiveCharacterTextSplitter} (text : str)
    (chunk_size chunk_overlap : Z) (separators : option (list str))
  : outcome (list str) :=
  let separators :=
    match separators with
    | None | Some [] => [[10%N; 10%N]; [10%N]; py ". "; py " "]
    | Some l => l
    end in
  split_text chunk_size chunk_overlap separators text.

(** ** [chunk_text] *)

(** The chunk appended to [chunks] for the text [chunk] of page
    [page_data]. *)
Definition make_chunk (chunks : list Chunk) (page_data : PageEntry)
    (chunk : str) : Chunk :=
  {| content := chunk;
     metadata :=
       {| chunk_id := len chunks + 1;
          page_number := page page_data;
          page_range := str_of_int (page page_data);
          word_count := len (split chunk) |} |}.

(** [for chunk in page_chunks: chunks.append(...)]. *)
Definition append_chunks (page_data : PageEntry) (page_chunks : list str)
    (chunks : list Chunk) : list Chunk :=
  foldl (fun chunks chunk => chunks ++ [make_chunk chunks page_data chunk])
    chunks page_chunks.

(** The branch [method == "by_pages"]. *)
Definition by_pages_branch (page_map : list PageEntry) : outcome (list Chunk) :=
  for_each page_map
    (fun chunks page_data =>
       Ok (chunks ++ [make_chunk chunks page_data (text page_data)]))
    [].

(** The branch [method == "fixed_size"]. *)
Definition fixed_size_branch (fuel : nat) (page_map : list PageEntry)
    (chunk_size chunk_overlap : Z) : outcome (list Chunk) :=
  for_each page_map
    (fun chunks page_data =>
       page_chunks ←
         _fixed_size_chunks fuel (text page_data) chunk_size chunk_overlap;
       Ok (append_chunks page_data page_chunks chunks))
    [].

(** The loop of the branch for [by_paragraphs], [by_sentences] and
    [by_separators]. *)
Definition splitter_branch (splitter_method : str -> outcome (list str))
    (page_map : list PageEntry) : outcome (list Chunk) :=
  for_each page_map
    (fun chunks page_data =>
       page_chunks ← splitter_method (text page_data);
       Ok (append_chunks page_data page_chunks chunks))
    [].

(** [now] is the value of [datetime.now().isoformat()] at the call. The
    handler [except Exception] logs the exception and raises it again, so
    the outcome of the body is the outcome of the call. *)
Definition chunk_text `{RecursiveCharacterTextSplitter} (fuel : nat)
    (now : str) (text method : str) (metadata : gmap str str)
    (page_map : option (list PageEntry)) (chunk_size chunk_overlap : Z)
    (separators : option (list str)) : outcome DocumentRecord :=
  match page_map with
  | None | Some [] =>
      Raise (ValueError (py "Page map is required for chunking."))
  | Some page_map =>
      let total_pages := len page_map in
      chunks ←
        (if decide (method = py "by_pages") then by_pages_branch page_map
         else if decide (method = py "fixed_size") then
           fixed_size_branch fuel page_map chunk_size chunk_overlap
         else if decide (method ∈ [py "by_paragraphs"; py "by_sentences";
                                    py "by_separators"]) then
           let splitter_method :=
             if decide (method = py "by_paragraphs") then
               fun t => Ok (_paragraph_chunks t)
             else if decide (method = py "by_sentences") then
               fun t => _sentence_chunks t chunk_size chunk_overlap
             else
               fun t => _separator_chunks t chunk_size chunk_overlap separators
           in
           splitter_branch splitter_method page_map
         else
           Raise (ValueError (py "Unsupported chunking method: " ++ method)));
      Ok {| filename := default [] (metadata !! py "filename");
            total_chunks := len chunks;
            total_pages := total_pages;
            loading_method := default [] (metadata !! py "loading_method");
            chunking_method := method;
            timestamp := now;
            chunks := chunks |}
  end.

(** A splitter that returns the text as one chunk, to run the calls that
    reach the library. *)
Definition whole_text_splitter : RecursiveCharacterTextSplitter :=
  fun _ _ _ t => Ok [t].

(** ** Vocabulary of the statements *)

(** Only whitespace, possibly nothing. *)
Definition blank (s : str) : Prop := Forall (λ c, isspace c = true) s.

(** A non-empty run of characters that are not whitespace. *)
Definition is_word (w : str) : Prop :=
  w ≠ [] ∧ Forall (λ c, isspace c = false) w.

Definition chunk_ids (l : list Chunk) : list Z :=
  map (λ c, chunk_id (metadata c)) l.

(** The record with its [timestamp] blanked out. *)
Definition erase_timestamp (r : DocumentRecord) : DocumentRecord :=
  {| filename := filename r;
     total_chunks := total_chunks r;
     total_pages := total_pages r;
     loading_method := loading_method r;
     chunking_method := chunking_method r;
     timestamp := [];
     chunks := chunks r |}.

#[global] Instance outcome_fmap : FMap outcome := fun A B f m =>
  match m with
  | Ok a => Ok (f a)
  | Raise e => Raise e
  | OutOfFuel => OutOfFuel
  end.

(** The chunk ids are [1, 2, ..., len chunks]. *)
Definition numbered (l : list Chunk) : Prop := chunk_ids l = seqZ 1 (len l).

Definition not_blank (s : str) : Prop := strip s ≠ [].

(** The function a method applies to the text of each page, if the method
    is supported. *)
Definition method_splitter `{RecursiveCharacterTextSplitter} (fuel : nat)
    (method : str) (chunk_size chunk_overlap : Z)
    (separators : option (list str)) : option (str -> outcome (list str)) :=
  if decide (method = py "by_pages") then Some (λ t, Ok [t])
  else if decide (method = py "fixed_size") then
    Some (λ t, _fixed_size_chunks fuel t chunk_size chunk_overlap)
  else if decide (method = py "by_paragraphs") then
    Some (λ t, Ok (_paragraph_chunks t))
  else if decide (method = py "by_sentences") then
    Some (λ t, _sentence_chunks t chunk_size chunk_overlap)
  else if decide (method = py "by_separators") then
    Some (λ t, _separator_chunks t chunk_size chunk_overlap separators)
  else None.

(** The chunk [by_pages] makes of the page at position [i]. *)
Definition page_chunk (i : nat) (p : PageEntry) : Chunk :=
  {| content := text p;
     metadata :=
       {| chunk_id := Z.of_nat i + 1;
          page_number := page p;
          page_range := str_of_int (page p);
          word_count := len (split (text p)) |} |}.

(** The window starts as the description of [fixed_size] has them: the
    first window starts at [start], each next one [step] words further, and
    the window whose end reaches the [n] words is the last. [k] bounds
    their number. *)
Fixpoint spec_window_starts (k : nat) (n wpc step start : Z) : list Z :=
  match k with
  | O => []
  | S k' =>
      start ::
        (if n <=? start + wpc then []
         else spec_window_starts k' n wpc step (start + step))
  end.

(** The text of the window of [wpc] words that starts at word [s]. *)
Definition window (words : list str) (wpc s : Z) : str :=
  join (py " ") (slice words s (s + wpc)).

(** What the handler [except Exception as e] writes to the log before it
    raises [e] again. *)
Definition str_of_exn (e : exn) : str :=
  match e with ValueError msg | LibraryError msg => msg end.

Definition logged {A} (o : outcome A) : list str :=
  match o with
  | Raise e => [py "Error in chunk_text: " ++ str_of_exn e]
  | _ => []
  end.

(** The page a chunk is attributed to, with the chunk's text. *)
Definition page_label (c : Chunk) : Z * str :=
  (page_number (metadata c), content c).

(** The words of the chunk at position [i] of a page that are not repeated
    from the chunk before it: all of them for the first chunk, all but the
    first [ow] for the others. *)
Definition fresh_words (ow : Z) (i : nat) (chunk : str) : list str :=
  match i with
  | O => split chunk
  | S _ => drop (Z.to_nat ow) (split chunk)
  end.

(** A splitter that refuses the empty text, to run a call in which the
    library raises. *)
Definition strict_splitter : RecursiveCharacterTextSplitter :=
  fun _ _ _ t =>
    if truthy t then Ok [t] else Raise (LibraryError (py "empty text")).

(** ** Paths

    [os.path.basename] and [os.path.join] as [posixpath] defines them. *)

(** [p[p.rfind('/') + 1:]]: what follows the last slash. [cur] is the part
    read since the last slash. *)
Fixpoint basename_from (cur p : str) : str :=
  match p with
  | [] => cur
  | c :: p' =>
      if (c =? 47)%N then basename_from [] p' else basename_from (cur ++ [c]) p'
  end.

Definition basename (p : str) : str := basename_from [] p.

(** [os.path.join(a, b)]. *)
Definition path_join (a b : str) : str :=
  match b with
  | 47%N :: _ => b
  | _ =>
      if negb (truthy a) || bool_decide (last a = Some 47%N) then a ++ b
      else a ++ py "/" ++ b
  end.

(** ** DocumentParseService *)

Module Parse.

(** A Python object other than [None], a [bool], an [int] or a [str], as
    the service observes it: whether [json.dumps] accepts it, [str(v)], its
    truth value and [int(v)]. *)
Record pyobj := {
  json_ok : bool;
  obj_str : str;
  obj_truth : bool;
  obj_int : outcome Z
}.

(** The values found in the metadata of an element. *)
Inductive pyval : Type :=
  | PNone
  | PBool (b : bool)
  | PInt (n : Z)
  | PStr (s : str)
  | PObj (o : pyobj).

(** [int(s)] for a string is Python's own parser; the statements hold for
    each behaviour of it. *)
Class Builtins := int_of_str : str -> outcome Z.

(** [str(v)]. *)
Definition py_str (v : pyval) : str :=
  match v with
  | PNone => py "None"
  | PBool true => py "True"
  | PBool false => py "False"
  | PInt n => str_of_int n
  | PStr s => s
  | PObj o => obj_str o
  end.

(** [bool(v)]. *)
Definition truth (v : pyval) : bool :=
  match v with
  | PNone => false
  | PBool b => b
  | PInt n => negb (n =? 0)
  | PStr s => truthy s
  | PObj o => obj_truth o
  end.

(** [int(v)]; on [None] it raises [TypeError]. *)
Definition py_int `{Builtins} (v : pyval) : outcome Z :=
  match v with
  | PNone => Raise (LibraryError (py "TypeError"))
  | PBool b => Ok (if b then 1 else 0)
  | PInt n => Ok n
  | PStr s => int_of_str s
  | PObj o => obj_int o
  end.

(** [json.dumps({k: v})] succeeds. *)
Definition json_serializable (v : pyval) : bool :=
  match v with
  | PObj o => json_ok o
  | _ => true
  end.

(** An element returned by [partition_pdf], as the service reads it:
    [str(elem)], [elem.metadata.__dict__] ([None] when the access raises),
    [elem.__class__.__name__], and the attributes [category] and [id]
    ([None] when the element has no such attribute). *)
Record Element := {
  elem_str : str;
  elem_metadata : option (gmap str pyval);
  elem_class_name : str;
  elem_category : option pyval;
  elem_id : option pyval
}.

(** The keyword arguments passed to [partition_pdf]: a key is present when
    its option is not [None]; [kwargs] are the caller's extra arguments. *)
Record Params := {
  strategy : str;
  include_header_footer : option bool;
  infer_table_structure : option bool;
  extract_images_in_pdf : option bool;
  languages : option (list str);
  kwargs : gmap str pyval
}.

(** [from unstructured.partition.pdf import partition_pdf]: [None] when the
    import raises. *)
Class Unstructured :=
  partition_pdf : option (str -> Params -> outcome (list Element)).

Record Chunk := { content : str; metadata : gmap str pyval }.

Record ParseRecord := {
  filename : str;
  total_chunks : Z;
  total_pages : Z;
  parsing_backend : str;
  parsing_method : str;
  timestamp : str;
  chunks : list Chunk
}.

(** [md.get(k)]. *)
Definition get (md : gmap str pyval) (k : str) : pyval :=
  default PNone (md !! k).

(** The loop that copies [md_raw] into [md]: the key [_known_field_names]
    is skipped, a value that [json.dumps] refuses is replaced by its
    [str]. *)
Definition clean_metadata (md_raw : gmap str pyval) : gmap str pyval :=
  (λ v, if json_serializable v then v else PStr (py_str v))
    <$> delete (py "_known_field_names") md_raw.

(** [md.update({...})] with the six keys the service sets. *)
Definition update_metadata (md : gmap str pyval) (chunk_id page_number : pyval)
    (elem : Element) (method : str) : gmap str pyval :=
  <[py "parse_method" := PStr method]>
    (<[py "id" := PStr (py_str (default PNone (elem_id elem)))]>
       (<[py "category" :=
            PStr (py_str (default PNone (elem_category elem)))]>
          (<[py "element_type" := PStr (elem_class_name elem)]>
             (<[py "page_number" := page_number]>
                (<[py "chunk_id" := chunk_id]> md))))).

(** One iteration of [for idx, elem in enumerate(elements, 1)] on the state
    [(chunks, pages)]. *)
Definition parse_element `{Builtins} (method : str)
    (st : list Chunk * gset Z) (elem : Element)
  : outcome (list Chunk * gset Z) :=
  let content := strip (elem_str elem) in
  if negb (truthy content) then Ok st
  else
    let md := clean_metadata (default ∅ (elem_metadata elem)) in
    let page_number :=
      if truth (get md (py "page_number")) then get md (py "page_number")
      else get md (py "page") in
    match page_number with
    | PNone =>
        Ok (st.1 ++ [{| content := content;
                        metadata :=
                          update_metadata md (PInt (len st.1 + 1)) PNone elem
                            method |}],
            st.2)
    | v =>
        n ← py_int v;
        Ok (st.1 ++ [{| content := content;
                        metadata :=
                          update_metadata md (PInt (len st.1 + 1)) (PInt n)
                            elem method |}],
            {[ n ]} ∪ st.2)
    end.

(** [max(pages) if pages else 0]. *)
Definition max_pages (pages : gset Z) : Z :=
  match elements pages with
  | [] => 0
  | n :: l => foldr Z.max n l
  end.

Definition _parse_with_unstructured `{Unstructured, Builtins} (now : str)
    (file_path filename method : str) (params : Params) : outcome ParseRecord :=
  match partition_pdf with
  | None =>
      Raise (ValueError (py "Unstructured parsing requested but dependency is missing. Install `unstructured` and its PDF extras."))
  | Some partition =>
      elements ← partition file_path params;
      st ← for_each elements (parse_element method) ([], ∅);
      Ok {| filename := filename;
            total_chunks := len st.1;
            total_pages := max_pages st.2;
            parsing_backend := py "unstructured";
            parsing_method := method;
            timestamp := now;
            chunks := st.1 |}
  end.

(** [now] is the value of [datetime.now().isoformat()] at the end of the
    call. *)
Definition parse_file `{Unstructured, Builtins} (now : str) (file_path : str)
    (backend method : str) (filename : option str) (params : Params)
  : outcome ParseRecord :=
  let filename :=
    match filename with
    | Some f => if truthy f then f else basename file_path
    | None => basename file_path
    end in
  if decide (backend = py "unstructured") then
    _parse_with_unstructured now file_path filename method params
  else Raise (ValueError (py "Unsupported parsing backend: " ++ backend)).

(** The [chunk_id] and [page_number] entries of a chunk. *)
Definition chunk_id_of (c : Chunk) : option pyval :=
  metadata c !! py "chunk_id".

Definition page_number_of (c : Chunk) : option pyval :=
  metadata c !! py "page_number".

(** Sample collaborators to run the service. *)
Definition no_int_of_str : Builtins :=
  fun _ => Raise (ValueError (py "invalid literal for int()")).

Definition sample_elements : list Element :=
  [{| elem_str := py " Title ";
      elem_metadata :=
        Some {[ py "page_number" := PInt 2;
                py "_known_field_names" := PObj {| json_ok := false;
                                                   obj_str := py "frozenset()";
                                                   obj_truth := true;
                                                   obj_int := Raise (LibraryError (py "TypeError")) |};
                py "chunk_id" := PStr (py "own") ]};
      elem_class_name := py "Title";
      elem_category := Some (PStr (py "Title"));
      elem_id := None |};
   {| elem_str := py "  ";
      elem_metadata := Some {[ py "page_number" := PInt 9 ]};
      elem_class_name := py "Text";
      elem_category := None;
      elem_id := None |};
   {| elem_str := py "Body";
      elem_metadata := None;
      elem_class_name := py "NarrativeText";
      elem_category := None;
      elem_id := Some (PInt 7) |};
   {| elem_str := py "Table";
      elem_metadata := Some {[ py "page" := PInt 5 ]};
      elem_class_name := py "Table";
      elem_category := None;
      elem_id := None |}].

Definition sample_unstructured : Unstructured :=
  Some (fun _ _ => Ok sample_elements).

Definition sample_params : Params :=
  {| strategy := py "hi_res";
     include_header_footer := None;
     infer_table_structure := Some true;
     extract_images_in_pdf := Some true;
     languages := None;
     kwargs := ∅ |}.

End Parse.

(** ** SearchService.save_search_results *)

Module Search.

(** [self.search_results_dir], set by [__init__]. *)
Definition search_results_dir : str := py "04-search-results".

(** The dict written to the file; [R] is the type of the result list. *)
Record SearchData (R : Type) := {
  query : str;
  collection_id : str;
  timestamp : str;
  results : R
}.
Arguments query {R}. Arguments collection_id {R}.
Arguments timestamp {R}. Arguments results {R}.

(** [with open(filepath, "w", encoding="utf-8") as f: json.dump(data, f,
    ...)]: the file system, which may raise. *)
Class JsonFiles (R : Type) := write_json : str -> SearchData R -> outcome unit.

(** [stamp] is [datetime.now().strftime("%Y%m%d%H%M%S")] and [iso] is
    [datetime.now().isoformat()], read in this order. The handler logs the
    exception and raises it again. *)
Definition save_search_results {R} `{JsonFiles R} (stamp iso : str)
    (query collection_id : str) (results : R) : outcome str :=
  let timestamp := stamp in
  let collection_base := basename collection_id in
  let filename :=
    py "search_" ++ collection_base ++ py "_" ++ timestamp ++ py ".json" in
  let filepath := path_join search_results_dir filename in
  let search_data :=
    {| query := query;
       collection_id := collection_id;
       timestamp := iso;
       results := results |} in
  _ ← write_json filepath search_data;
  Ok filepath.

(** A file system that accepts every write. *)
Definition accepting_files (R : Type) : JsonFiles R := fun _ _ => Ok tt.

End Search.

(** [s] holds two consecutive line feeds. *)
Definition has_blank_line (s : str) : Prop :=
  ∃ a b, s = a ++ [10%N; 10%N] ++ b.

(** The pieces of a text cut at its separators of two line feeds, found
    from left to right without overlap: a text that holds no separator is
    one piece; otherwise the first piece [p] ends where the first separator
    begins (no separator starts before the end of [p], that is, [p]
    followed by one line feed holds none), and what follows that separator
    is cut in the same way. *)
Inductive blank_line_pieces : str -> list str -> Prop :=
  | pieces_last text :
      ¬ has_blank_line text → blank_line_pieces text [text]
  | pieces_cut p rest pieces :
      ¬ has_blank_line (p ++ [10%N]) →
      blank_line_pieces rest pieces →
      blank_line_pieces (p ++ [10%N; 10%N] ++ rest) (p :: pieces).

(** * Properties *)

(** ** Whitespace, [strip], [split] and [join] *)

Lemma py_space : py " " = [32%N].
Proof. reflexivity. Qed.

Lemma truthy_true {A} (l : list A) : truthy l = true ↔ l ≠ [].
Proof. destruct l; simpl; split; congruence. Qed.

Lemma lstrip_nil_iff s : lstrip s = [] ↔ blank s.
Proof.
  unfold blank. induction s as [|c s IH]; simpl.
  - split; auto.
  - destruct (isspace c) eqn:E.
    + rewrite IH. split; [by constructor | by inversion 1].
    + split; [discriminate | inversion 1; congruence].
Qed.

Lemma lstrip_blank_iff s : blank (lstrip s) ↔ blank s.
Proof.
  unfold blank. induction s as [|c s IH]; simpl; [done|].
  destruct (isspace c) eqn:E; [|done].
  rewrite IH. split; [by constructor | by inversion 1].
Qed.

Lemma lstrip_fixed s :
  match s with [] => True | c :: _ => isspace c = false end → lstrip s = s.
Proof. destruct s as [|c s]; simpl; [done|]. by intros ->. Qed.

Lemma lstrip_head s :
  match lstrip s with [] => True | c :: _ => isspace c = false end.
Proof.
  induction s as [|c s IH]; simpl; [done|].
  destruct (isspace c) eqn:E; [done|]. by simpl.
Qed.

Lemma lstrip_idemp s : lstrip (lstrip s) = lstrip s.
Proof. apply lstrip_fixed, lstrip_head. Qed.

Lemma lstrip_suffix s : ∃ k, s = k ++ lstrip s.
Proof.
  induction s as [|c s [k IH]]; simpl; [by exists []|].
  destruct (isspace c); [|by exists []].
  exists (c :: k). simpl. by f_equal.
Qed.

Lemma rstrip_prefix s : ∃ k, s = rstrip s ++ k.
Proof.
  unfold rstrip. destruct (lstrip_suffix (reverse s)) as [k Hk].
  exists (reverse k).
  rewrite <- reverse_app, <- Hk. by rewrite reverse_involutive.
Qed.

Lemma rstrip_idemp s : rstrip (rstrip s) = rstrip s.
Proof. unfold rstrip. by rewrite reverse_involutive, lstrip_idemp. Qed.

Lemma rstrip_nil_iff s : rstrip s = [] ↔ blank s.
Proof.
  unfold rstrip. split.
  - intros H. apply (f_equal reverse) in H.
    rewrite reverse_involutive, reverse_nil in H.
    apply lstrip_nil_iff in H. unfold blank in *.
    apply Forall_reverse in H. by rewrite reverse_involutive in H.
  - intros H. apply Forall_reverse in H. apply lstrip_nil_iff in H.
    by rewrite H.
Qed.

(** [strip] returns the empty string exactly on blank strings. *)
Lemma strip_nil_iff s : strip s = [] ↔ blank s.
Proof. unfold strip. by rewrite rstrip_nil_iff, lstrip_blank_iff. Qed.

Lemma strip_idemp s : strip (strip s) = strip s.
Proof.
  unfold strip. rewrite (lstrip_fixed (rstrip (lstrip s))).
  - apply rstrip_idemp.
  - destruct (rstrip_prefix (lstrip s)) as [k Hk].
    pose proof (lstrip_head s) as Hh.
    destruct (rstrip (lstrip s)) as [|c r]; [done|].
    rewrite Hk in Hh. by simpl in Hh.
Qed.

Lemma word_not_blank w s : is_word w → ¬ blank (w ++ s).
Proof.
  intros [Hne Hw] Hb. destruct w as [|c w]; [done|].
  inversion Hw; subst. inversion Hb; subst. congruence.
Qed.

Lemma split_words_words cur s :
  Forall (λ c, isspace c = false) cur → Forall is_word (split_words cur s).
Proof.
  revert cur. induction s as [|c s IH]; intros cur Hcur; simpl.
  - destruct cur as [|a cur]; simpl; [by constructor|].
    constructor; [by split|constructor].
  - destruct (isspace c) eqn:E.
    + apply Forall_app. split; [|by apply IH].
      destruct cur as [|a cur]; simpl; [by constructor|].
      constructor; [by split|constructor].
    + apply IH, Forall_app. split; [done|]. by repeat constructor.
Qed.

(** The words of [s.split()] are non-empty and free of whitespace. *)
Lemma split_words_are_words s : Forall is_word (split s).
Proof. by apply split_words_words. Qed.

Lemma split_words_app cur w s :
  Forall (λ c, isspace c = false) w →
  split_words cur (w ++ s) = split_words (cur ++ w) s.
Proof.
  revert cur. induction w as [|c w IH]; intros cur Hw; simpl.
  - by rewrite app_nil_r.
  - inversion Hw as [|? ? Hc Hw']; subst. rewrite Hc, IH by done.
    by rewrite <- app_assoc.
Qed.

Lemma join_cons sep w ws :
  join sep (w :: ws) = match ws with [] => w | _ => w ++ sep ++ join sep ws end.
Proof. by destruct ws. Qed.

(** Splitting the words joined by single spaces gives the words back. *)
Lemma split_join ws : Forall is_word ws → split (join (py " ") ws) = ws.
Proof.
  unfold split. rewrite py_space.
  induction ws as [|w ws IH]; intros Hws; [done|].
  inversion Hws as [|? ? [Hne Hw] Hws']; subst.
  rewrite join_cons. destruct ws as [|w' ws].
  - replace w with (w ++ []) at 1 by apply app_nil_r.
    rewrite split_words_app by done. simpl. by destruct w.
  - rewrite split_words_app by done.
    change ([32%N] ++ ?t) with (32%N :: t).
    cbn [split_words app]. change (isspace 32) with true. cbn iota.
    rewrite IH by done. by destruct w.
Qed.

Lemma join_words_not_blank sep ws :
  ws ≠ [] → Forall is_word ws → strip (join sep ws) ≠ [].
Proof.
  intros Hne Hws. rewrite strip_nil_iff. destruct ws as [|w ws]; [done|].
  inversion Hws; subst. rewrite join_cons. destruct ws.
  - rewrite <- (app_nil_r w). by apply word_not_blank.
  - by apply word_not_blank.
Qed.

(** ** The sliding window of [_fixed_size_chunks] *)

Lemma words_per_chunk_pos chunk_size : 1 ≤ words_per_chunk chunk_size.
Proof. unfold words_per_chunk. lia. Qed.

Lemma overlap_words_nonneg chunk_overlap : 0 ≤ overlap_words chunk_overlap.
Proof. unfold overlap_words. destruct (chunk_overlap <=? 0); lia. Qed.

(** When the overlap is at least the window and the words do not fit in one
    window, the second iteration starts where the first did: the loop
    never ends. *)
Lemma fixed_size_loop_stuck words wpc ow :
  0 < wpc → wpc ≤ ow → wpc < len words →
  ∀ fuel chunks, fixed_size_loop fuel words wpc ow 0 chunks = OutOfFuel.
Proof.
  intros Hw Ho Hl fuel. induction fuel as [|fuel IH]; intros chunks; [done|].
  cbn [fixed_size_loop].
  destruct (Z.ltb_spec 0 (len words)); [|lia].
  replace (Z.min (len words) (0 + wpc)) with wpc by lia.
  rewrite Z.geb_leb. destruct (Z.leb_spec (len words) wpc); [lia|].
  replace (Z.max 0 (wpc - ow)) with 0 by lia. apply IH.
Qed.

(** With an overlap below the window the start moves forward at each
    iteration, and the loop ends within [len words - start + 1]
    iterations. *)
Lemma fixed_size_loop_returns words wpc ow :
  ow < wpc →
  ∀ fuel start chunks,
    0 ≤ start → (Z.to_nat (len words - start) < fuel)%nat →
    ∃ r, fixed_size_loop fuel words wpc ow start chunks = Ok r.
Proof.
  intros Ho fuel. induction fuel as [|fuel IH]; intros start chunks Hs Hf;
    [lia|].
  cbn [fixed_size_loop].
  destruct (Z.ltb_spec start (len words)); [|by eexists].
  rewrite Z.geb_leb.
  destruct (Z.leb_spec (len words) (Z.min (len words) (start + wpc)));
    [by eexists|].
  apply IH; lia.
Qed.

(** The words fit in the window that starts at [start]: one iteration. *)
Lemma fixed_size_loop_last fuel words wpc ow start chunks :
  len words ≤ start + wpc →
  ∃ r, fixed_size_loop (S fuel) words wpc ow start chunks = Ok r.
Proof.
  intros Hl. cbn [fixed_size_loop].
  destruct (Z.ltb_spec start (len words)); [|by eexists].
  rewrite Z.geb_leb.
  destruct (Z.leb_spec (len words) (Z.min (len words) (start + wpc)));
    [by eexists|lia].
Qed.

Lemma fixed_size_loop_no_raise fuel words wpc ow start chunks e :
  fixed_size_loop fuel words wpc ow start chunks ≠ Raise e.
Proof.
  revert start chunks. induction fuel as [|fuel IH]; intros start chunks;
    [done|].
  cbn [fixed_size_loop].
  destruct (start <? len words); [|done].
  destruct (Z.min (len words) (start + wpc) >=? len words); [done|].
  apply IH.
Qed.

(** More fuel does not change a result. *)
Lemma fixed_size_loop_mono fuel fuel' words wpc ow start chunks r :
  fixed_size_loop fuel words wpc ow start chunks = Ok r →
  (fuel ≤ fuel')%nat →
  fixed_size_loop fuel' words wpc ow start chunks = Ok r.
Proof.
  revert fuel' start chunks.
  induction fuel as [|fuel IH]; intros fuel' start chunks; [done|].
  destruct fuel' as [|fuel']; [lia|]. cbn [fixed_size_loop].
  destruct (start <? len words); [|done].
  destruct (Z.min (len words) (start + wpc) >=? len words); [done|].
  intros Hr Hle. apply IH; [done|lia].
Qed.

(** The loop appends only chunks that are not blank. *)
Lemma fixed_size_loop_not_blank fuel words wpc ow start chunks r :
  fixed_size_loop fuel words wpc ow start chunks = Ok r →
  Forall not_blank chunks → Forall not_blank r.
Proof.
  revert start chunks.
  induction fuel as [|fuel IH]; intros start chunks; [done|].
  cbn [fixed_size_loop].
  destruct (start <? len words); [|by intros [= ->]].
  set (chunk := join (py " ") (slice words start _)).
  assert (Forall not_blank chunks →
          Forall not_blank
            (if truthy (strip chunk) then chunks ++ [chunk] else chunks))
    as Hstep.
  { intros Hc. destruct (truthy (strip chunk)) eqn:E; [|done].
    apply Forall_app. split; [done|]. repeat constructor.
    by apply truthy_true. }
  destruct (_ >=? _).
  - intros [= <-]. done.
  - intros Hr Hc. eapply IH; [exact Hr|by apply Hstep].
Qed.

Lemma fixed_size_chunks_mono fuel fuel' text chunk_size chunk_overlap r :
  _fixed_size_chunks fuel text chunk_size chunk_overlap = Ok r →
  (fuel ≤ fuel')%nat →
  _fixed_size_chunks fuel' text chunk_size chunk_overlap = Ok r.
Proof.
  unfold _fixed_size_chunks. destruct (chunk_size <=? 0); [done|].
  apply fixed_size_loop_mono.
Qed.

(** [_fixed_size_chunks] returns when the overlap in words is below the
    window in words, or when the page fits in one window. *)
Lemma fixed_size_chunks_returns text chunk_size chunk_overlap :
  overlap_words chunk_overlap < words_per_chunk chunk_size
  ∨ len (split text) ≤ words_per_chunk chunk_size →
  ∃ r, ∀ fuel, (length (split text) < fuel)%nat →
    _fixed_size_chunks fuel text chunk_size chunk_overlap = Ok r.
Proof.
  intros Hc. unfold _fixed_size_chunks.
  destruct (chunk_size <=? 0); [by eexists|].
  set (words := split text). fold words in Hc.
  set (wpc := words_per_chunk chunk_size) in *.
  set (ow := overlap_words chunk_overlap) in *.
  assert (∃ r, fixed_size_loop (S (length words)) words wpc ow 0 [] = Ok r)
    as [r Hr].
  { destruct Hc as [Hc|Hc].
    - apply fixed_size_loop_returns; [done|done|]. unfold len. lia.
    - apply fixed_size_loop_last. lia. }
  exists r. intros fuel Hf.
  eapply fixed_size_loop_mono; [exact Hr|lia].
Qed.

(** Otherwise it does not return, whatever the number of iterations. *)
Lemma fixed_size_chunks_diverges text chunk_size chunk_overlap :
  0 < chunk_size →
  words_per_chunk chunk_size ≤ overlap_words chunk_overlap →
  words_per_chunk chunk_size < len (split text) →
  ∀ fuel, _fixed_size_chunks fuel text chunk_size chunk_overlap = OutOfFuel.
Proof.
  intros Hs Ho Hl fuel. unfold _fixed_size_chunks.
  destruct (Z.leb_spec chunk_size 0); [lia|].
  apply fixed_size_loop_stuck; [|done|done].
  pose proof (words_per_chunk_pos chunk_size). lia.
Qed.

(** ** Loops over the pages *)

Lemma for_each_invariant {A S} (P : S → Prop) (l : list A) body acc r :
  (∀ acc x acc', x ∈ l → P acc → body acc x = Ok acc' → P acc') →
  P acc → for_each l body acc = Ok r → P r.
Proof.
  revert acc. induction l as [|x l IH]; intros acc Hbody Hacc; simpl.
  - by intros [= <-].
  - destruct (body acc x) as [acc'| |] eqn:E; simpl; [|done|done].
    apply IH.
    + intros ? ? ? ?. apply Hbody. by right.
    + eapply Hbody; [by left|exact Hacc|exact E].
Qed.

Lemma append_chunks_invariant (P : list Chunk → Prop) (Q : str → Prop)
    page_data page_chunks chunks :
  (∀ cs t, Q t → P cs → P (cs ++ [make_chunk cs page_data t])) →
  Forall Q page_chunks → P chunks →
  P (append_chunks page_data page_chunks chunks).
Proof.
  intros Hstep. unfold append_chunks. revert chunks.
  induction page_chunks as [|t ts IH]; intros chunks Hq Hp; simpl; [done|].
  inversion Hq; subst. apply IH; [done|]. by apply Hstep.
Qed.

(** A property of the chunk list that each append keeps holds of the
    chunks of every branch. *)
Lemma splitter_branch_invariant (P : list Chunk → Prop) (Q : str → Prop)
    splitter_method page_map r :
  (∀ cs p t, Q t → P cs → P (cs ++ [make_chunk cs p t])) →
  (∀ p ts, p ∈ page_map → splitter_method (text p) = Ok ts → Forall Q ts) →
  P [] → splitter_branch splitter_method page_map = Ok r → P r.
Proof.
  intros Hstep Hsplit Hnil. unfold splitter_branch.
  apply for_each_invariant; [|done].
  intros acc p acc' Hin Hacc.
  destruct (splitter_method (text p)) as [ts| |] eqn:E; simpl; [|done|done].
  intros [= <-]. apply append_chunks_invariant with (Q := Q); [|by eauto|done].
  intros. by apply Hstep.
Qed.

Lemma by_pages_as_splitter page_map :
  by_pages_branch page_map = splitter_branch (λ t, Ok [t]) page_map.
Proof. reflexivity. Qed.

Lemma fixed_size_as_splitter fuel page_map chunk_size chunk_overlap :
  fixed_size_branch fuel page_map chunk_size chunk_overlap
  = splitter_branch
      (λ t, _fixed_size_chunks fuel t chunk_size chunk_overlap) page_map.
Proof. reflexivity. Qed.

(** [chunk_text] read as: reject an empty page map, choose the splitter of
    the method, run it over the pages, assemble the record. *)
Lemma chunk_text_unfold `{RecursiveCharacterTextSplitter} fuel now txt method
    md page_map chunk_size chunk_overlap separators :
  chunk_text fuel now txt method md page_map chunk_size chunk_overlap separators
  = match page_map with
    | None | Some [] =>
        Raise (ValueError (py "Page map is required for chunking."))
    | Some pm =>
        match method_splitter fuel method chunk_size chunk_overlap separators
        with
        | Some f =>
            chunks ← splitter_branch f pm;
            Ok {| filename := default [] (md !! py "filename");
                  total_chunks := len chunks;
                  total_pages := len pm;
                  loading_method := default [] (md !! py "loading_method");
                  chunking_method := method;
                  timestamp := now;
                  chunks := chunks |}
        | None =>
            Raise (ValueError (py "Unsupported chunking method: " ++ method))
        end
    end.
Proof.
  unfold chunk_text, method_splitter.
  destruct page_map as [[|p pm]|]; [done| |done].
  destruct (decide (method = py "by_pages")); [done|].
  destruct (decide (method = py "fixed_size")); [done|].
  destruct (decide (method ∈ _)) as [Hin|Hnin].
  - destruct (decide (method = py "by_paragraphs")); [done|].
    destruct (decide (method = py "by_sentences")); [done|].
    destruct (decide (method = py "by_separators")); [done|].
    repeat (apply elem_of_cons in Hin as [?|Hin]; [done|]).
    by apply elem_of_nil in Hin.
  - destruct (decide (method = py "by_paragraphs")) as [->|]; [set_solver|].
    destruct (decide (method = py "by_sentences")) as [->|]; [set_solver|].
    destruct (decide (method = py "by_separators")) as [->|]; [set_solver|].
    done.
Qed.

Lemma chunk_text_Ok_inv `{RecursiveCharacterTextSplitter} fuel now txt method
    md page_map chunk_size chunk_overlap separators rec :
  chunk_text fuel now txt method md page_map chunk_size chunk_overlap separators
  = Ok rec →
  ∃ pm f,
    page_map = Some pm ∧ pm ≠ []
    ∧ method_splitter fuel method chunk_size chunk_overlap separators = Some f
    ∧ splitter_branch f pm = Ok (chunks rec)
    ∧ total_chunks rec = len (chunks rec)
    ∧ total_pages rec = len pm.
Proof.
  rewrite chunk_text_unfold.
  destruct page_map as [[|p pm]|]; [done| |done].
  destruct (method_splitter _ _ _ _ _) as [f|]; [|done].
  destruct (splitter_branch f (p :: pm)) as [cs| |] eqn:E; simpl; [|done|done].
  intros [= <-]. exists (p :: pm), f. by repeat split.
Qed.

(** A property kept by each append holds of the chunks of every successful
    call. *)
Lemma chunk_text_invariant `{RecursiveCharacterTextSplitter}
    (P : list Chunk → Prop) fuel now txt method md page_map chunk_size
    chunk_overlap separators rec :
  (∀ cs p t, P cs → P (cs ++ [make_chunk cs p t])) → P [] →
  chunk_text fuel now txt method md page_map chunk_size chunk_overlap separators
  = Ok rec →
  P (chunks rec).
Proof.
  intros Hstep Hnil Hrec.
  apply chunk_text_Ok_inv in Hrec as (pm & f & _ & _ & _ & Hb & _).
  eapply splitter_branch_invariant with (Q := λ _, True);
    [by intros; apply Hstep| |done|exact Hb].
  intros. by apply Forall_true.
Qed.

Lemma numbered_append cs p t : numbered cs → numbered (cs ++ [make_chunk cs p t]).
Proof.
  unfold numbered, chunk_ids, len. intros Hn.
  rewrite map_app, length_app, Hn. simpl.
  rewrite Nat.add_1_r, seqZ_S. do 2 f_equal. unfold len. lia.
Qed.

Lemma method_splitter_by_pages `{RecursiveCharacterTextSplitter} fuel
    chunk_size chunk_overlap separators :
  method_splitter fuel (py "by_pages") chunk_size chunk_overlap separators
  = Some (λ t, Ok [t]).
Proof. reflexivity. Qed.

Lemma method_splitter_fixed_size `{RecursiveCharacterTextSplitter} fuel
    chunk_size chunk_overlap separators :
  method_splitter fuel (py "fixed_size") chunk_size chunk_overlap separators
  = Some (λ t, _fixed_size_chunks fuel t chunk_size chunk_overlap).
Proof. reflexivity. Qed.

Lemma method_splitter_by_paragraphs `{RecursiveCharacterTextSplitter} fuel
    chunk_size chunk_overlap separators :
  method_splitter fuel (py "by_paragraphs") chunk_size chunk_overlap separators
  = Some (λ t, Ok (_paragraph_chunks t)).
Proof. reflexivity. Qed.

Lemma method_splitter_by_sentences `{RecursiveCharacterTextSplitter} fuel
    chunk_size chunk_overlap separators :
  method_splitter fuel (py "by_sentences") chunk_size chunk_overlap separators
  = Some (λ t, _sentence_chunks t chunk_size chunk_overlap).
Proof. reflexivity. Qed.

Lemma method_splitter_by_separators `{RecursiveCharacterTextSplitter} fuel
    chunk_size chunk_overlap separators :
  method_splitter fuel (py "by_separators") chunk_size chunk_overlap separators
  = Some (λ t, _separator_chunks t chunk_size chunk_overlap separators).
Proof. reflexivity. Qed.

(** ** Slices and windows *)

Lemma slice_length {A} (l : list A) i j :
  0 ≤ i → i ≤ j → j ≤ len l → length (slice l i j) = Z.to_nat (j - i).
Proof.
  intros Hi Hij Hj. unfold slice, slice_index, len in *.
  destruct (Z.ltb_spec i 0); [lia|]. destruct (Z.ltb_spec j 0); [lia|].
  rewrite length_take, length_drop. lia.
Qed.

Lemma slice_Forall {A} (P : A → Prop) (l : list A) i j :
  Forall P l → Forall P (slice l i j).
Proof. intros Hl. unfold slice. by apply Forall_take, Forall_drop. Qed.

(** A window over the words of [split] is never blank, so the loop emits a
    chunk at every iteration. *)
Lemma fixed_size_loop_step fuel words wpc ow start chunks :
  Forall is_word words → 0 ≤ start → start < len words → 0 < wpc →
  fixed_size_loop (S fuel) words wpc ow start chunks
  = let end_ := Z.min (len words) (start + wpc) in
    let chunks' := chunks ++ [join (py " ") (slice words start end_)] in
    if end_ >=? len words then Ok chunks'
    else fixed_size_loop fuel words wpc ow (Z.max 0 (end_ - ow)) chunks'.
Proof.
  intros Hw Hs Hl Hp. cbn [fixed_size_loop].
  destruct (Z.ltb_spec start (len words)); [|lia].
  set (end_ := Z.min (len words) (start + wpc)).
  assert (truthy (strip (join (py " ") (slice words start end_))) = true)
    as ->; [|done].
  apply truthy_true, join_words_not_blank; [|by apply slice_Forall].
  intros Hnil. apply (f_equal length) in Hnil.
  rewrite slice_length in Hnil by lia. simpl in Hnil. lia.
Qed.

Lemma slice_clamp {A} (l : list A) i j :
  0 ≤ j → slice l i (Z.min (len l) j) = slice l i j.
Proof.
  intros Hj. unfold slice, slice_index.
  destruct (Z.ltb_spec (Z.min (len l) j) 0); [unfold len in *; lia|].
  destruct (Z.ltb_spec j 0); [lia|].
  by replace (Z.min (Z.min (len l) j) (len l)) with (Z.min j (len l)) by lia.
Qed.

(** With an overlap below the window, the loop returns the windows that
    start at [start], [start + (wpc - ow)], [start + 2 (wpc - ow)], ...,
    the last one being the first whose end reaches the end of the words. *)
Lemma fixed_size_loop_windows words wpc ow :
  Forall is_word words → 0 ≤ ow → ow < wpc →
  ∀ fuel start chunks,
    0 ≤ start → start < len words →
    (Z.to_nat (len words - start) ≤ fuel)%nat →
    fixed_size_loop fuel words wpc ow start chunks
    = Ok (chunks ++
          map (window words wpc)
            (spec_window_starts fuel (len words) wpc (wpc - ow) start)).
Proof.
  intros Hw Ho Hlt fuel.
  induction fuel as [|fuel IH]; intros start chunks Hs Hl Hf; [lia|].
  rewrite fixed_size_loop_step by (done || lia).
  cbn [spec_window_starts]. cbn zeta.
  rewrite slice_clamp by lia. fold (window words wpc start).
  rewrite Z.geb_leb.
  destruct (Z.leb_spec (len words) (Z.min (len words) (start + wpc)));
    destruct (Z.leb_spec (len words) (start + wpc)); try lia; [done|].
  replace (Z.max 0 (Z.min (len words) (start + wpc) - ow))
    with (start + (wpc - ow)) by lia.
  rewrite IH by lia. by rewrite <- app_assoc.
Qed.

Lemma fixed_size_chunks_windows fuel text chunk_size chunk_overlap :
  0 < chunk_size →
  overlap_words chunk_overlap < words_per_chunk chunk_size →
  split text ≠ [] → (length (split text) ≤ fuel)%nat →
  _fixed_size_chunks fuel text chunk_size chunk_overlap
  = Ok (map (window (split text) (words_per_chunk chunk_size))
          (spec_window_starts fuel (len (split text))
             (words_per_chunk chunk_size)
             (words_per_chunk chunk_size - overlap_words chunk_overlap) 0)).
Proof.
  intros Hs Ho Hne Hf. unfold _fixed_size_chunks.
  destruct (Z.leb_spec chunk_size 0); [lia|].
  rewrite fixed_size_loop_windows;
    [done|apply split_words_are_words|apply overlap_words_nonneg|done|done
    | |unfold len; lia].
  unfold len. destruct (split text); [done|]. simpl. lia.
Qed.

(** A page without words yields no chunk. *)
Lemma fixed_size_chunks_no_words fuel text chunk_size chunk_overlap :
  0 < chunk_size → split text = [] →
  _fixed_size_chunks (S fuel) text chunk_size chunk_overlap = Ok [].
Proof.
  intros Hs Hnil. unfold _fixed_size_chunks.
  destruct (Z.leb_spec chunk_size 0); [lia|]. by rewrite Hnil.
Qed.

(** ** The [by_pages] loop *)

Lemma by_pages_loop page_map acc :
  for_each page_map
    (λ chunks page_data,
       Ok (chunks ++ [make_chunk chunks page_data (text page_data)])) acc
  = Ok (acc ++ imap (λ i, page_chunk (length acc + i)) page_map).
Proof.
  revert acc. induction page_map as [|p pm IH]; intros acc; simpl.
  - by rewrite app_nil_r.
  - rewrite IH. f_equal. rewrite <- app_assoc. f_equal. simpl. f_equal.
    + unfold make_chunk, page_chunk, len. do 2 f_equal. lia.
    + apply imap_ext. intros i x _. simpl. f_equal.
      rewrite length_app. simpl. lia.
Qed.

Lemma by_pages_branch_eq page_map :
  by_pages_branch page_map = Ok (imap page_chunk page_map).
Proof. unfold by_pages_branch. by rewrite by_pages_loop. Qed.

Lemma chunk_text_by_pages `{RecursiveCharacterTextSplitter} fuel now txt md
    page_map chunk_size chunk_overlap separators :
  page_map ≠ [] →
  chunk_text fuel now txt (py "by_pages") md (Some page_map) chunk_size
    chunk_overlap separators
  = Ok {| filename := default [] (md !! py "filename");
          total_chunks := len (imap page_chunk page_map);
          total_pages := len page_map;
          loading_method := default [] (md !! py "loading_method");
          chunking_method := py "by_pages";
          timestamp := now;
          chunks := imap page_chunk page_map |}.
Proof.
  intros Hne. rewrite chunk_text_unfold, method_splitter_by_pages.
  destruct page_map as [|p0 pm]; [done|].
  by rewrite <- by_pages_as_splitter, by_pages_branch_eq.
Qed.

Lemma for_each_ext {A S} (l : list A) (f g : S → A → outcome S) acc :
  (∀ acc x, f acc x = g acc x) → for_each l f acc = for_each l g acc.
Proof.
  intros Hfg. revert acc. induction l as [|x l IH]; intros acc; simpl;
    [done|].
  rewrite Hfg. destruct (g acc x); simpl; [apply IH|done|done].
Qed.

Lemma splitter_branch_ext f g page_map :
  (∀ t, f t = g t) → splitter_branch f page_map = splitter_branch g page_map.
Proof.
  intros Hfg. unfold splitter_branch. apply for_each_ext.
  intros acc p. by rewrite Hfg.
Qed.

Lemma paragraph_chunks_not_blank text : Forall not_blank (_paragraph_chunks text).
Proof.
  unfold _paragraph_chunks, not_blank.
  apply Forall_forall. intros s Hs.
  apply list_elem_of_In, in_map_iff in Hs as (p & <- & Hp).
  apply filter_In in Hp as [_ Hp]. rewrite strip_idemp.
  by apply truthy_true.
Qed.

Lemma fixed_size_chunks_not_blank fuel text chunk_size chunk_overlap r :
  0 < chunk_size →
  _fixed_size_chunks fuel text chunk_size chunk_overlap = Ok r →
  Forall not_blank r.
Proof.
  intros Hs. unfold _fixed_size_chunks.
  destruct (Z.leb_spec chunk_size 0); [lia|].
  intros Hr. eapply fixed_size_loop_not_blank; [exact Hr|constructor].
Qed.

(** ** Fuel *)

Lemma for_each_mono {A S} (l : list A) (f g : S → A → outcome S) acc r :
  (∀ acc x acc', f acc x = Ok acc' → g acc x = Ok acc') →
  for_each l f acc = Ok r → for_each l g acc = Ok r.
Proof.
  intros Hfg. revert acc. induction l as [|x l IH]; intros acc; simpl;
    [done|].
  destruct (f acc x) as [acc'| |] eqn:E; simpl; [|done|done].
  rewrite (Hfg _ _ _ E). simpl. apply IH.
Qed.

Lemma method_splitter_mono `{RecursiveCharacterTextSplitter} fuel fuel' method
    chunk_size chunk_overlap separators f :
  (fuel ≤ fuel')%nat →
  method_splitter fuel method chunk_size chunk_overlap separators = Some f →
  ∃ g,
    method_splitter fuel' method chunk_size chunk_overlap separators = Some g
    ∧ ∀ t r, f t = Ok r → g t = Ok r.
Proof.
  intros Hle. unfold method_splitter.
  repeat case_decide; intros [= <-]; eexists; (split; [done|]); try done.
  intros t r Hr. by eapply fixed_size_chunks_mono.
Qed.

Lemma splitter_branch_mono f g page_map r :
  (∀ t ts, f t = Ok ts → g t = Ok ts) →
  splitter_branch f page_map = Ok r → splitter_branch g page_map = Ok r.
Proof.
  intros Hfg. unfold splitter_branch. apply for_each_mono.
  intros acc p acc'.
  destruct (f (text p)) as [ts| |] eqn:Et; simpl; [|done|done].
  by rewrite (Hfg _ _ Et).
Qed.

(** A record returned within [fuel] iterations per page is the record
    returned with any larger allowance. *)
Lemma chunk_text_mono `{RecursiveCharacterTextSplitter} fuel fuel' now txt
    method md page_map chunk_size chunk_overlap separators rec :
  chunk_text fuel now txt method md page_map chunk_size chunk_overlap separators
  = Ok rec →
  (fuel ≤ fuel')%nat →
  chunk_text fuel' now txt method md page_map chunk_size chunk_overlap
    separators = Ok rec.
Proof.
  rewrite !chunk_text_unfold. intros Hrec Hle.
  destruct page_map as [[|p pm]|]; [done| |done].
  destruct (method_splitter fuel _ _ _ _) as [f|] eqn:Ef; [|done].
  destruct (method_splitter_mono _ _ _ _ _ _ _ Hle Ef) as (g & -> & Hfg).
  destruct (splitter_branch f (p :: pm)) as [cs| |] eqn:Eb; [|done|done].
  by rewrite (splitter_branch_mono _ _ _ _ Hfg Eb).
Qed.

Lemma splitter_branch_returns f page_map :
  Forall (λ p, ∃ ts, f (text p) = Ok ts) page_map →
  ∃ r, splitter_branch f page_map = Ok r.
Proof.
  unfold splitter_branch. generalize (@nil Chunk).
  induction page_map as [|p pm IH]; intros acc Hf; simpl; [by eexists|].
  inversion Hf as [|? ? [ts Hts] Hf']; subst. rewrite Hts. simpl.
  by apply IH.
Qed.

(** [chunk_text] returns a record for [fixed_size] whenever the overlap in
    words is below the window in words, given an allowance above the word
    count of every page. *)
Lemma chunk_text_fixed_size_returns `{RecursiveCharacterTextSplitter} fuel now
    txt md page_map chunk_size chunk_overlap separators :
  page_map ≠ [] →
  overlap_words chunk_overlap < words_per_chunk chunk_size →
  Forall (λ p, (length (split (text p)) < fuel)%nat) page_map →
  ∃ rec,
    chunk_text fuel now txt (py "fixed_size") md (Some page_map) chunk_size
      chunk_overlap separators = Ok rec.
Proof.
  intros Hne Ho Hfuel. rewrite chunk_text_unfold, method_splitter_fixed_size.
  destruct page_map as [|p0 pm]; [done|].
  destruct (splitter_branch_returns
    (λ t, _fixed_size_chunks fuel t chunk_size chunk_overlap) (p0 :: pm))
    as [r ->]; [|by eexists].
  eapply Forall_impl; [exact Hfuel|]. intros p Hp. simpl in Hp.
  destruct (fixed_size_chunks_returns (text p) chunk_size chunk_overlap
              (or_introl Ho)) as [ts Hts].
  exists ts. by apply Hts.
Qed.

(** [by_paragraphs] always returns a record for a non-empty page map. *)
Lemma chunk_text_by_paragraphs_returns `{RecursiveCharacterTextSplitter} fuel
    now txt md page_map chunk_size chunk_overlap separators :
  page_map ≠ [] →
  ∃ rec,
    chunk_text fuel now txt (py "by_paragraphs") md (Some page_map) chunk_size
      chunk_overlap separators = Ok rec.
Proof.
  intros Hne. rewrite chunk_text_unfold, method_splitter_by_paragraphs.
  destruct page_map as [|p0 pm]; [done|].
  destruct (splitter_branch_returns (λ t, Ok (_paragraph_chunks t))
              (p0 :: pm)) as [r ->]; [|by eexists].
  apply Forall_forall. intros p _. by eexists.
Qed.

(** ** Windows as an arithmetic run *)

Lemma slice_take_drop {A} (l : list A) a b :
  0 ≤ a → a ≤ len l → 0 ≤ b →
  slice l a b = take (Z.to_nat (b - a)) (drop (Z.to_nat a) l).
Proof.
  intros Ha Hal Hb. unfold slice, slice_index, len in *.
  destruct (Z.ltb_spec a 0); [lia|]. destruct (Z.ltb_spec b 0); [lia|].
  replace (Z.min a (Z.of_nat (length l))) with a by lia.
  destruct (Z_le_gt_dec b (Z.of_nat (length l))).
  - by replace (Z.min b (Z.of_nat (length l))) with b by lia.
  - rewrite !take_ge; [done|rewrite length_drop; lia|rewrite length_drop; lia].
Qed.

Lemma split_window words wpc s :
  Forall is_word words → split (window words wpc s) = slice words s (s + wpc).
Proof. intros Hw. unfold window. by rewrite split_join by by apply slice_Forall. Qed.

(** The starts are [start], [start + step], ...: an arithmetic run whose
    last element is the first to bring the window's end to [n]. *)
Lemma spec_window_starts_run k n wpc step start :
  0 < step → step ≤ wpc → start < n → (Z.to_nat (n - start) ≤ k)%nat →
  ∃ m, spec_window_starts k n wpc step start
       = map (λ i : nat, start + Z.of_nat i * step) (seq 0 (S m))
       ∧ n ≤ start + Z.of_nat m * step + wpc
       ∧ ∀ i, (i < m)%nat → start + Z.of_nat i * step + wpc < n.
Proof.
  intros Hstep Hle. revert start.
  induction k as [|k IH]; intros start Hs Hk; [lia|].
  cbn [spec_window_starts].
  destruct (Z.leb_spec n (start + wpc)) as [Hl|Hl].
  - exists 0%nat. split; [simpl; do 2 f_equal; lia|]. split; [lia|lia].
  - destruct (IH (start + step)) as (m & Hm & Hlast & Hbefore); [lia|lia|].
    exists (S m). split; [|split].
    + rewrite Hm. change (seq 0 (S (S m))) with (0%nat :: seq 1 (S m)).
      rewrite <- seq_shift, map_cons, map_map. f_equal; [lia|].
      apply map_ext. intros i. lia.
    + lia.
    + intros [|i] Hi; [lia|]. specialize (Hbefore i). lia.
Qed.

(** A returned result is the list of windows, whatever the allowance. *)
Lemma fixed_size_chunks_Ok_windows fuel text chunk_size chunk_overlap r :
  0 < chunk_size →
  overlap_words chunk_overlap < words_per_chunk chunk_size →
  split text ≠ [] →
  _fixed_size_chunks fuel text chunk_size chunk_overlap = Ok r →
  ∃ k, (length (split text) ≤ k)%nat
    ∧ r = map (window (split text) (words_per_chunk chunk_size))
            (spec_window_starts k (len (split text))
               (words_per_chunk chunk_size)
               (words_per_chunk chunk_size - overlap_words chunk_overlap) 0).
Proof.
  intros Hs Ho Hne Hr. exists (fuel `max` length (split text))%nat.
  split; [lia|].
  apply (fixed_size_chunks_mono _ (fuel `max` length (split text))%nat)
    in Hr; [|lia].
  rewrite fixed_size_chunks_windows in Hr; [|done|done|done|lia].
  by injection Hr.
Qed.

Lemma fixed_size_chunks_Ok_no_words fuel text chunk_size chunk_overlap r :
  0 < chunk_size → split text = [] →
  _fixed_size_chunks fuel text chunk_size chunk_overlap = Ok r → r = [].
Proof.
  intros Hs Hnil. unfold _fixed_size_chunks.
  destruct (Z.leb_spec chunk_size 0); [lia|]. rewrite Hnil.
  destruct fuel; [done|]. simpl. by intros [= <-].
Qed.

(** On a page with words, the chunk at position [i] is the window that
    starts at word [i * (words_per_chunk - overlap_words)]; the last window
    is the first whose end reaches the end of the words. *)
Lemma fixed_size_chunks_run fuel text chunk_size chunk_overlap r :
  0 < chunk_size →
  overlap_words chunk_overlap < words_per_chunk chunk_size →
  split text ≠ [] →
  _fixed_size_chunks fuel text chunk_size chunk_overlap = Ok r →
  ∃ m : nat,
    r = map (λ i : nat,
               window (split text) (words_per_chunk chunk_size)
                 (Z.of_nat i
                  * (words_per_chunk chunk_size - overlap_words chunk_overlap)))
          (seq 0 (S m))
    ∧ len (split text)
      ≤ Z.of_nat m
        * (words_per_chunk chunk_size - overlap_words chunk_overlap)
        + words_per_chunk chunk_size
    ∧ ∀ i, (i < m)%nat →
        Z.of_nat i
        * (words_per_chunk chunk_size - overlap_words chunk_overlap)
        + words_per_chunk chunk_size < len (split text).
Proof.
  intros Hs Ho Hne Hr.
  destruct (fixed_size_chunks_Ok_windows _ _ _ _ _ Hs Ho Hne Hr)
    as (k & Hk & ->).
  pose proof (overlap_words_nonneg chunk_overlap) as Hov.
  destruct (spec_window_starts_run k (len (split text))
              (words_per_chunk chunk_size)
              (words_per_chunk chunk_size - overlap_words chunk_overlap) 0)
    as (m & Hm & Hlast & Hbefore); [lia|lia| |unfold len; lia|].
  { unfold len. destruct (split text); [done|]. simpl. lia. }
  exists m. rewrite Hm, map_map. split; [done|]. split; [lia|].
  intros i Hi. specialize (Hbefore i Hi). lia.
Qed.

(** ** The source on small inputs *)

Example paragraph_chunks_example :
  _paragraph_chunks
    (py "Para one." ++ [10; 10]%N ++ py "Para two." ++ [10; 10; 10]%N
     ++ py "Para three.")
  = [py "Para one."; py "Para two."; py "Para three."].
Proof. reflexivity. Qed.

Example split_example :
  split (9%N :: py " one  two" ++ [10%N] ++ py "three ")
  = [py "one"; py "two"; py "three"].
Proof. reflexivity. Qed.

Example spec_window_starts_example :
  spec_window_starts 12 12 5 (5 - 1) 0 = [0; 4; 8].
Proof. reflexivity. Qed.

Example fixed_size_overlap_example :
  _fixed_size_chunks 12 (py "a b c d e f g h i j k l") 30 6
  = Ok (map (window (split (py "a b c d e f g h i j k l")) 5) [0; 4; 8]).
Proof. reflexivity. Qed.

Example fixed_size_degenerate_blank_example :
  _fixed_size_chunks 0 (py " ") 0 200 = Ok [py " "].
Proof. reflexivity. Qed.

Example unsupported_method_example :
  @chunk_text whole_text_splitter 0 (py "2024-05-01T10:00:00") (py "")
    (py "by_magic") ∅ (Some [{| page := 1; text := py "a" |}]) 1000 200 None
  = Raise (ValueError (py "Unsupported chunking method: by_magic")).
Proof. reflexivity. Qed.

Example logged_example :
  logged (@chunk_text whole_text_splitter 0 (py "2024-05-01T10:00:00")
            (py "") (py "by_pages") ∅ None 1000 200 None)
  = [py "Error in chunk_text: Page map is required for chunking."].
Proof. reflexivity. Qed.

(** * The claims *)

(** C1. For every successful call to [chunk_text], whatever the method and
    the page map, the [chunk_id] values of the returned chunks, in output
    order, are exactly 1, 2, ..., [total_chunks], and [total_chunks] is the
    length of the chunk list. *)
Theorem chunk_ids_contiguous `{RecursiveCharacterTextSplitter} fuel now txt
    method md page_map chunk_size chunk_overlap separators rec :
  chunk_text fuel now txt method md page_map chunk_size chunk_overlap separators
  = Ok rec →
  chunk_ids (chunks rec) = seqZ 1 (total_chunks rec)
  ∧ total_chunks rec = len (chunks rec).
Proof.
  intros Hrec.
  assert (total_chunks rec = len (chunks rec)) as Htot.
  { by apply chunk_text_Ok_inv in Hrec as (? & ? & _ & _ & _ & _ & ? & _). }
  split; [|done]. rewrite Htot.
  apply (chunk_text_invariant numbered) in Hrec; [done| |done].
  intros. by apply numbered_append.
Qed.

Lemma chunk_ids_contiguous_witness :
  ∃ rec,
    @chunk_text whole_text_splitter 8 (py "2024-05-01T10:00:00") (py "")
      (py "fixed_size") ∅
      (Some [{| page := 1; text := py "a b c d e f g h i j k l" |};
             {| page := 2; text := py "m n" |}]) 30 6 None = Ok rec
    ∧ chunk_ids (chunks rec) = [1; 2; 3; 4]
    ∧ total_chunks rec = 4.
Proof.
  eexists. split; [vm_compute; reflexivity|].
  pose proof (@chunk_ids_contiguous whole_text_splitter 8
    (py "2024-05-01T10:00:00") (py "") (py "fixed_size") ∅
    (Some [{| page := 1; text := py "a b c d e f g h i j k l" |};
           {| page := 2; text := py "m n" |}]) 30 6 None _ eq_refl) as [H1 H2].
  split; [exact H1|exact H2].
Defined.

Lemma map_content_imap (f : nat → PageEntry → Chunk) page_map :
  (∀ i p, content (f i p) = text p) →
  map content (imap f page_map) = map text page_map.
Proof.
  revert f. induction page_map as [|p pm IH]; intros f Hf; [done|].
  rewrite imap_cons. simpl. rewrite Hf. f_equal. apply IH.
  intros i q. apply Hf.
Qed.

(** C2 (as the code has it). No chunk of a successful call is blank after
    trimming for [by_paragraphs] and for [fixed_size] with [chunk_size >
    0]; for [by_sentences] and [by_separators] none is blank provided the
    splitting library returns no blank chunk on the pages of the call.
    [by_pages], and [fixed_size] with [chunk_size <= 0], return the text of
    every page as it is, one chunk per page, blank or not. *)
Theorem no_blank_chunks `{RecursiveCharacterTextSplitter} fuel now txt method
    md page_map chunk_size chunk_overlap separators rec :
  chunk_text fuel now txt method md page_map chunk_size chunk_overlap separators
  = Ok rec →
  (method = py "by_paragraphs"
   ∨ (method = py "fixed_size" ∧ 0 < chunk_size)
   ∨ (method = py "by_sentences"
      ∧ ∀ pm p ts,
          page_map = Some pm → p ∈ pm →
          _sentence_chunks (text p) chunk_size chunk_overlap = Ok ts →
          Forall not_blank ts)
   ∨ (method = py "by_separators"
      ∧ ∀ pm p ts,
          page_map = Some pm → p ∈ pm →
          _separator_chunks (text p) chunk_size chunk_overlap separators
          = Ok ts →
          Forall not_blank ts) →
   Forall (λ c, strip (content c) ≠ []) (chunks rec))
  ∧ (method = py "by_pages"
     ∨ (method = py "fixed_size" ∧ chunk_size ≤ 0) →
     ∃ pm, page_map = Some pm ∧ map content (chunks rec) = map text pm).
Proof.
  intros Hrec.
  apply chunk_text_Ok_inv in Hrec as (pm & f & Hpm & _ & Hf & Hb & _).
  split.
  - intros Hm.
    eapply splitter_branch_invariant with (Q := not_blank);
      [| |constructor|exact Hb].
    + intros cs p t Ht Hcs. apply Forall_app. split; [done|].
      by repeat constructor.
    + intros p ts Hin Hts.
      destruct Hm as [->|[[-> Hs]|[[-> Hlib]|[-> Hlib]]]].
      * rewrite method_splitter_by_paragraphs in Hf. injection Hf as <-.
        injection Hts as <-. apply paragraph_chunks_not_blank.
      * rewrite method_splitter_fixed_size in Hf. injection Hf as <-.
        by eapply fixed_size_chunks_not_blank.
      * rewrite method_splitter_by_sentences in Hf. injection Hf as <-.
        by eapply (Hlib pm p).
      * rewrite method_splitter_by_separators in Hf. injection Hf as <-.
        by eapply (Hlib pm p).
  - intros Hm. exists pm. split; [done|].
    assert (splitter_branch (λ t, Ok [t]) pm = Ok (chunks rec)) as Hpages.
    { destruct Hm as [->|[-> Hs]].
      - rewrite method_splitter_by_pages in Hf. by injection Hf as <-.
      - rewrite method_splitter_fixed_size in Hf. injection Hf as <-.
        rewrite <- Hb. apply splitter_branch_ext. intros t.
        unfold _fixed_size_chunks.
        by destruct (Z.leb_spec chunk_size 0); [|lia]. }
    rewrite <- by_pages_as_splitter, by_pages_branch_eq in Hpages.
    injection Hpages as <-. by apply map_content_imap.
Qed.

Lemma no_blank_chunks_witness :
  ∃ rec,
    @chunk_text whole_text_splitter 0 (py "2024-05-01T10:00:00") (py "")
      (py "by_sentences") ∅
      (Some [{| page := 1; text := py "One. Two." |}]) 1000 200 None = Ok rec
    ∧ (∀ pm p ts,
         Some [{| page := 1; text := py "One. Two." |}] = Some pm → p ∈ pm →
         @_sentence_chunks whole_text_splitter (text p) 1000 200 = Ok ts →
         Forall not_blank ts)
    ∧ Forall (λ c, strip (content c) ≠ []) (chunks rec).
Proof.
  assert (∀ pm p ts,
            Some [{| page := 1; text := py "One. Two." |}] = Some pm → p ∈ pm →
            @_sentence_chunks whole_text_splitter (text p) 1000 200 = Ok ts →
            Forall not_blank ts) as Hlib.
  { intros pm p ts [= <-] Hin Hts.
    apply list_elem_of_singleton in Hin as ->.
    injection Hts as <-. repeat constructor. unfold not_blank.
    vm_compute. discriminate. }
  eexists. split; [vm_compute; reflexivity|]. split; [exact Hlib|].
  apply (proj1 (@no_blank_chunks whole_text_splitter 0
    (py "2024-05-01T10:00:00") (py "") (py "by_sentences") ∅
    (Some [{| page := 1; text := py "One. Two." |}]) 1000 200 None _
    eq_refl)).
  right. right. left. split; [reflexivity|exact Hlib].
Defined.

(** C2 as stated fails: [by_pages] turns a page of one space into a chunk
    whose content is blank. *)
Lemma by_pages_keeps_blank_page :
  @chunk_text whole_text_splitter 0 (py "2024-05-01T10:00:00") (py " ")
    (py "by_pages") ∅ (Some [{| page := 1; text := py " " |}]) 1000 200 None
  = Ok {| filename := [];
          total_chunks := 1;
          total_pages := 1;
          loading_method := [];
          chunking_method := py "by_pages";
          timestamp := py "2024-05-01T10:00:00";
          chunks :=
            [{| content := py " ";
                metadata :=
                  {| chunk_id := 1;
                     page_number := 1;
                     page_range := py "1";
                     word_count := 0 |} |}] |}
  ∧ strip (py " ") = [].
Proof. split; reflexivity. Qed.

(** C3 (the code does not do this). With [chunk_size = 100] and the default
    [chunk_overlap = 200] the window is 16 words and the overlap 33 words:
    on a page of 17 words the loop of [_fixed_size_chunks] starts every
    iteration at word 0 and never ends, and neither does [chunk_text]. *)
Theorem fixed_size_never_returns `{RecursiveCharacterTextSplitter} fuel now
    txt md separators :
  _fixed_size_chunks fuel (py "a b c d e f g h i j k l m n o p q") 100 200
  = OutOfFuel
  ∧ chunk_text fuel now txt (py "fixed_size") md
      (Some [{| page := 1; text := py "a b c d e f g h i j k l m n o p q" |}])
      100 200 separators
    = OutOfFuel.
Proof.
  assert (_fixed_size_chunks fuel (py "a b c d e f g h i j k l m n o p q")
            100 200 = OutOfFuel) as Hloop.
  { apply fixed_size_chunks_diverges; [lia|by vm_compute|by vm_compute]. }
  split; [done|].
  rewrite chunk_text_unfold, method_splitter_fixed_size.
  unfold splitter_branch. simpl for_each. cbn [text]. by rewrite Hloop.
Qed.

Lemma slice_all {A} (l : list A) : slice l 0 (len l) = l.
Proof.
  rewrite slice_take_drop by (unfold len; lia).
  change (Z.to_nat 0) with 0%nat. rewrite drop_0, take_ge; [done|].
  unfold len. lia.
Qed.

(** C4. For [chunk_size > 0] the window is [wpc = max(1, chunk_size // 6)]
    words and the overlap [ow = 0 if chunk_overlap <= 0 else max(0,
    chunk_overlap // 6)] words, and the window slides to [max(0, end -
    ow)]. So, for every text and every [chunk_overlap]: a page without
    words gives no chunk; a page of at most [wpc] words gives its words as
    one chunk; with [ow < wpc] the chunk at position [i] is the window of
    [wpc] words that starts at word [i * (wpc - ow)], the last window being
    the first whose end reaches the end of the words; and with [ow >= wpc]
    on a longer page the window slides back to word 0 and the loop does not
    end. In particular a page of 12 words with [chunk_size = 30] and
    [chunk_overlap = 6] yields exactly 3 chunks, the windows that start at
    the words 0, 4 and 8, and the last chunk has 4 words, fewer than 5. *)
Theorem fixed_size_windowing text :
  (∀ fuel chunk_size chunk_overlap,
     let words := split text in
     let wpc := Z.max 1 (chunk_size / 6) in
     let ow :=
       if chunk_overlap <=? 0 then 0 else Z.max 0 (chunk_overlap / 6) in
     0 < chunk_size → (length words < fuel)%nat →
     (words = [] →
      _fixed_size_chunks fuel text chunk_size chunk_overlap = Ok [])
     ∧ (words ≠ [] → len words ≤ wpc →
        _fixed_size_chunks fuel text chunk_size chunk_overlap
        = Ok [join (py " ") words])
     ∧ (ow < wpc →
        ∃ m : nat,
          _fixed_size_chunks fuel text chunk_size chunk_overlap
          = Ok (map (λ i : nat,
                       join (py " ")
                         (slice words (Z.of_nat i * (wpc - ow))
                            (Z.of_nat i * (wpc - ow) + wpc)))
                  (seq 0 m))
          ∧ (∀ i, (S i < m)%nat → Z.of_nat i * (wpc - ow) + wpc < len words)
          ∧ (words ≠ [] →
             (0 < m)%nat ∧ len words ≤ (Z.of_nat m - 1) * (wpc - ow) + wpc))
     ∧ (wpc ≤ ow → wpc < len words →
        ∀ fuel', _fixed_size_chunks fuel' text chunk_size chunk_overlap
                 = OutOfFuel))
  ∧ (∀ fuel, length (split text) = 12%nat → (3 ≤ fuel)%nat →
       words_per_chunk 30 = 5 ∧ overlap_words 6 = 1
       ∧ _fixed_size_chunks fuel text 30 6
         = Ok [join (py " ") (slice (split text) 0 5);
               join (py " ") (slice (split text) 4 9);
               join (py " ") (slice (split text) 8 12)]
       ∧ len (split (join (py " ") (slice (split text) 8 12))) = 4).
Proof.
  pose proof (split_words_are_words text) as Hw.
  split.
  - intros fuel chunk_size chunk_overlap words wpc ow Hs Hfuel.
    assert (wpc = words_per_chunk chunk_size) as Hwpc by reflexivity.
    assert (ow = overlap_words chunk_overlap) as How by reflexivity.
    clearbody wpc ow. subst wpc ow words.
    pose proof (words_per_chunk_pos chunk_size) as Hpos.
    destruct fuel as [|fuel]; [lia|].
    split; [|split; [|split]].
    + intros Hnil. by apply fixed_size_chunks_no_words.
    + intros Hne Hfit. unfold _fixed_size_chunks.
      destruct (Z.leb_spec chunk_size 0); [lia|].
      assert (0 < len (split text)) as Hlen.
      { unfold len. destruct (split text); [done|]. simpl. lia. }
      rewrite fixed_size_loop_step by (done || lia). cbn zeta.
      replace (Z.min (len (split text)) (0 + words_per_chunk chunk_size))
        with (len (split text)) by lia.
      rewrite slice_all, Z.geb_leb.
      by destruct (Z.leb_spec (len (split text)) (len (split text))); [|lia].
    + intros Ho.
      destruct (fixed_size_chunks_returns text chunk_size chunk_overlap
                  (or_introl Ho)) as [r Hr].
      specialize (Hr (S fuel) Hfuel). rewrite Hr.
      destruct (decide (split text = [])) as [Hnil|Hne].
      * rewrite (fixed_size_chunks_Ok_no_words _ _ _ _ _ Hs Hnil Hr).
        exists 0%nat. split; [done|]. split; [intros; lia|done].
      * destruct (fixed_size_chunks_run _ _ _ _ _ Hs Ho Hne Hr)
          as (m & -> & Hlast & Hbefore).
        exists (S m). split; [done|]. split.
        -- intros i Hi. apply Hbefore. lia.
        -- intros _. split; [lia|].
           replace (Z.of_nat (S m) - 1) with (Z.of_nat m) by lia.
           exact Hlast.
    + intros Ho Hlong fuel'. by apply fixed_size_chunks_diverges.
  - intros fuel Hlen Hfuel.
    assert (len (split text) = 12) as Hl by (unfold len; lia).
    split; [done|split; [done|split]].
    + destruct fuel as [|[|[|fuel]]]; [lia|lia|lia|].
      unfold _fixed_size_chunks. change (30 <=? 0) with false. cbn iota.
      change (words_per_chunk 30) with 5. change (overlap_words 6) with 1.
      rewrite fixed_size_loop_step by (done || lia). rewrite Hl. cbn zeta.
      change (Z.min 12 (0 + 5) >=? 12) with false. cbn iota.
      change (Z.max 0 (Z.min 12 (0 + 5) - 1)) with 4.
      rewrite fixed_size_loop_step by (done || lia). rewrite Hl. cbn zeta.
      change (Z.min 12 (4 + 5) >=? 12) with false. cbn iota.
      change (Z.max 0 (Z.min 12 (4 + 5) - 1)) with 8.
      rewrite fixed_size_loop_step by (done || lia). rewrite Hl. cbn zeta.
      change (Z.min 12 (8 + 5) >=? 12) with true. cbn iota.
      reflexivity.
    + rewrite split_join by (by apply slice_Forall).
      unfold len. rewrite slice_length by lia. done.
Qed.

Lemma fixed_size_windowing_witness :
  length (split (py "a b c d e f g h i j k l")) = 12%nat
  ∧ (3 ≤ 3)%nat
  ∧ _fixed_size_chunks 3 (py "a b c d e f g h i j k l") 30 6
    = Ok [py "a b c d e"; py "e f g h i"; py "i j k l"]
  ∧ 0 < 30
  ∧ (length (split (py "a b c d e f g h i j k l")) < 13)%nat
  ∧ _fixed_size_chunks 13 (py "a b c d e f g h i j k l") 30 12
    = Ok [py "a b c d e"; py "d e f g h"; py "g h i j k"; py "j k l"]
  ∧ ∃ m : nat,
      _fixed_size_chunks 13 (py "a b c d e f g h i j k l") 30 12
      = Ok (map (λ i : nat,
                   join (py " ")
                     (slice (split (py "a b c d e f g h i j k l"))
                        (Z.of_nat i * (5 - 2)) (Z.of_nat i * (5 - 2) + 5)))
              (seq 0 m)).
Proof.
  assert (length (split (py "a b c d e f g h i j k l")) < 13)%nat as Hf
    by (vm_compute; lia).
  destruct (fixed_size_windowing (py "a b c d e f g h i j k l"))
    as [Hgen Hex].
  split; [reflexivity|]. split; [lia|].
  split; [exact (proj1 (proj2 (proj2 (Hex 3%nat eq_refl (le_n 3)))))|].
  split; [lia|]. split; [exact Hf|]. split; [reflexivity|].
  specialize (Hgen 13%nat 30 12). cbv zeta in Hgen.
  destruct (Hgen ltac:(lia) Hf) as (_ & _ & Hrun & _).
  destruct (Hrun ltac:(reflexivity)) as (m & Hm & _).
  exists m. exact Hm.
Defined.

(** C6. With [by_pages] on a non-empty page map every page gives exactly
    one chunk: [total_chunks] equals [total_pages], and the chunk at
    position [i] has the text of page [i] as content, its page number as
    [page_number] and that number written out as [page_range]. *)
Theorem by_pages_page_fidelity `{RecursiveCharacterTextSplitter} fuel now txt
    md page_map chunk_size chunk_overlap separators :
  page_map ≠ [] →
  ∃ rec,
    chunk_text fuel now txt (py "by_pages") md (Some page_map) chunk_size
      chunk_overlap separators = Ok rec
    ∧ total_chunks rec = total_pages rec
    ∧ total_pages rec = len page_map
    ∧ length (chunks rec) = length page_map
    ∧ ∀ i p, page_map !! i = Some p →
        ∃ c, chunks rec !! i = Some c
          ∧ content c = text p
          ∧ page_number (metadata c) = page p
          ∧ page_range (metadata c) = str_of_int (page p).
Proof.
  intros Hne. eexists. split; [by apply chunk_text_by_pages|].
  cbn [total_chunks total_pages chunks].
  unfold len. rewrite length_imap. repeat split.
  intros i p Hp. exists (page_chunk i p). split; [|done].
  by rewrite list_lookup_imap, Hp.
Qed.

Lemma by_pages_page_fidelity_witness :
  [{| page := 7; text := py "first page" |};
   {| page := 9; text := py "" |}] ≠ []
  ∧ ∃ rec,
      @chunk_text whole_text_splitter 0 (py "2024-05-01T10:00:00") (py "")
        (py "by_pages") ∅
        (Some [{| page := 7; text := py "first page" |};
               {| page := 9; text := py "" |}]) 1000 200 None = Ok rec
      ∧ total_chunks rec = 2.
Proof.
  split; [discriminate|].
  destruct (@by_pages_page_fidelity whole_text_splitter 0
    (py "2024-05-01T10:00:00") (py "") ∅
    [{| page := 7; text := py "first page" |};
     {| page := 9; text := py "" |}] 1000 200 None
    ltac:(discriminate)) as (rec & Hrec & Htot & Hpages & _).
  exists rec. split; [exact Hrec|]. rewrite Htot. exact Hpages.
Defined.

(** C7. [fixed_size] with [chunk_size <= 0] returns the whole text of the
    page as a single chunk, at any number of iterations allowed, so each
    page yields one chunk; with [chunk_size = 0] the text "a b c" yields the
    one chunk "a b c". *)
Theorem fixed_size_degenerate `{RecursiveCharacterTextSplitter} fuel text
    chunk_size chunk_overlap :
  chunk_size ≤ 0 →
  _fixed_size_chunks fuel text chunk_size chunk_overlap = Ok [text]
  ∧ ∀ now txt md page_map separators, page_map ≠ [] →
      chunks <$> chunk_text fuel now txt (py "fixed_size") md (Some page_map)
                   chunk_size chunk_overlap separators
      = Ok (imap page_chunk page_map).
Proof.
  intros Hs.
  assert (∀ t, _fixed_size_chunks fuel t chunk_size chunk_overlap = Ok [t])
    as Hone.
  { intros t. unfold _fixed_size_chunks.
    by destruct (Z.leb_spec chunk_size 0); [|lia]. }
  split; [apply Hone|].
  intros now txt md page_map separators Hne.
  rewrite chunk_text_unfold, method_splitter_fixed_size.
  destruct page_map as [|p0 pm]; [done|].
  rewrite (splitter_branch_ext _ (λ t, Ok [t])) by apply Hone.
  by rewrite <- by_pages_as_splitter, by_pages_branch_eq.
Qed.

Lemma fixed_size_degenerate_witness :
  0 ≤ 0 ∧ _fixed_size_chunks 0 (py "a b c") 0 200 = Ok [py "a b c"].
Proof.
  split; [lia|].
  exact (proj1 (@fixed_size_degenerate whole_text_splitter 0 (py "a b c")
                  0 200 (Z.le_refl 0))).
Defined.

(** C8. Whatever the method and the other arguments, a page map that is
    [None] or the empty list makes [chunk_text] raise the error "Page map is
    required for chunking." and return no record; a call that returns a
    record was given a non-empty page map. *)
Theorem empty_page_map_rejected `{RecursiveCharacterTextSplitter} fuel now txt
    method md page_map chunk_size chunk_overlap separators :
  (page_map = None ∨ page_map = Some [] →
   chunk_text fuel now txt method md page_map chunk_size chunk_overlap
     separators
   = Raise (ValueError (py "Page map is required for chunking.")))
  ∧ (∀ rec,
       chunk_text fuel now txt method md page_map chunk_size chunk_overlap
         separators = Ok rec →
       ∃ pm, page_map = Some pm ∧ pm ≠ []).
Proof.
  split.
  - by intros [-> | ->].
  - intros rec Hrec.
    apply chunk_text_Ok_inv in Hrec as (pm & _ & ? & ? & _). by exists pm.
Qed.

Lemma empty_page_map_rejected_witness :
  @chunk_text whole_text_splitter 5 (py "2024-05-01T10:00:00") (py "some text")
    (py "by_sentences") ∅ (Some []) 1000 200 None
  = Raise (ValueError (py "Page map is required for chunking."))
  ∧ @chunk_text whole_text_splitter 5 (py "2024-05-01T10:00:00")
      (py "some text") (py "by_magic") ∅ None 1000 200 None
    = Raise (ValueError (py "Page map is required for chunking.")).
Proof.
  split.
  - exact (proj1 (@empty_page_map_rejected whole_text_splitter 5
      (py "2024-05-01T10:00:00") (py "some text") (py "by_sentences") ∅
      (Some []) 1000 200 None) (or_intror eq_refl)).
  - exact (proj1 (@empty_page_map_rejected whole_text_splitter 5
      (py "2024-05-01T10:00:00") (py "some text") (py "by_magic") ∅
      None 1000 200 None) (or_introl eq_refl)).
Defined.

(** C9. In every successful call, with every method, the [word_count] of
    each returned chunk is the number of whitespace-separated tokens of
    that chunk's content. *)
Theorem word_count_of_content `{RecursiveCharacterTextSplitter} fuel now txt
    method md page_map chunk_size chunk_overlap separators rec :
  chunk_text fuel now txt method md page_map chunk_size chunk_overlap separators
  = Ok rec →
  Forall (λ c, word_count (metadata c) = len (split (content c)))
    (chunks rec).
Proof.
  apply (chunk_text_invariant
    (Forall (λ c, word_count (metadata c) = len (split (content c)))));
    [|constructor].
  intros cs p t Hcs. apply Forall_app. split; [done|]. by repeat constructor.
Qed.

Lemma word_count_of_content_witness :
  ∃ rec,
    @chunk_text whole_text_splitter 8 (py "2024-05-01T10:00:00") (py "")
      (py "by_separators") ∅
      (Some [{| page := 4; text := py "one two  three" |}]) 1000 200 None
    = Ok rec
    ∧ map (λ c, word_count (metadata c)) (chunks rec) = [3]
    ∧ Forall (λ c, word_count (metadata c) = len (split (content c)))
        (chunks rec).
Proof.
  eexists. split; [vm_compute; reflexivity|]. split; [reflexivity|].
  exact (@word_count_of_content whole_text_splitter 8
    (py "2024-05-01T10:00:00") (py "") (py "by_separators") ∅
    (Some [{| page := 4; text := py "one two  three" |}]) 1000 200 None
    _ eq_refl).
Defined.

(** C10. The [text] argument has no influence on the result: two calls that
    differ only in [text] (and in the time of the call) have the same
    outcome, and when they return, their records are equal in every field
    but [timestamp]. *)
Theorem text_argument_unused `{RecursiveCharacterTextSplitter} fuel now1 now2
    text1 text2 method md page_map chunk_size chunk_overlap separators :
  erase_timestamp <$> chunk_text fuel now1 text1 method md page_map chunk_size
                        chunk_overlap separators
  = erase_timestamp <$> chunk_text fuel now2 text2 method md page_map
                          chunk_size chunk_overlap separators.
Proof.
  rewrite !chunk_text_unfold.
  destruct page_map as [[|p pm]|]; [done| |done].
  destruct (method_splitter _ _ _ _ _) as [f|]; [|done].
  by destruct (splitter_branch f (p :: pm)).
Qed.

(** * Further properties of the chunking service *)

(** ** Dispatch and record assembly *)

(** X1. With a non-empty page map, a method other than the five supported
    ones makes [chunk_text] raise "Unsupported chunking method: <method>",
    whatever the other arguments; no page is split. *)
Theorem unsupported_method_rejected `{RecursiveCharacterTextSplitter} fuel now
    txt method md page_map chunk_size chunk_overlap separators :
  page_map ≠ [] →
  method ∉ [py "by_pages"; py "fixed_size"; py "by_paragraphs";
            py "by_sentences"; py "by_separators"] →
  chunk_text fuel now txt method md (Some page_map) chunk_size chunk_overlap
    separators
  = Raise (ValueError (py "Unsupported chunking method: " ++ method)).
Proof.
  intros Hne Hm. rewrite chunk_text_unfold.
  destruct page_map as [|p pm]; [done|].
  unfold method_splitter.
  repeat (destruct (decide (method = _)) as [Heq|_];
    [exfalso; apply Hm; rewrite Heq; set_solver|]).
  done.
Qed.

Lemma unsupported_method_rejected_witness :
  [{| page := 1; text := py "a" |}] ≠ []
  ∧ (py "by_magic" ∉ [py "by_pages"; py "fixed_size"; py "by_paragraphs";
                       py "by_sentences"; py "by_separators"])
  ∧ @chunk_text whole_text_splitter 3 (py "2024-05-01T10:00:00") (py "a")
      (py "by_magic") ∅ (Some [{| page := 1; text := py "a" |}]) 1000 200
      None
    = Raise (ValueError (py "Unsupported chunking method: by_magic")).
Proof.
  assert (py "by_magic" ∉ [py "by_pages"; py "fixed_size"; py "by_paragraphs";
                            py "by_sentences"; py "by_separators"]) as Hm.
  { intros Hin. repeat (apply elem_of_cons in Hin as [Hin|Hin];
      [by vm_compute in Hin|]). by apply elem_of_nil in Hin. }
  split; [discriminate|]. split; [exact Hm|].
  exact (@unsupported_method_rejected whole_text_splitter 3
    (py "2024-05-01T10:00:00") (py "a") (py "by_magic") ∅
    [{| page := 1; text := py "a" |}] 1000 200 None ltac:(discriminate) Hm).
Defined.

Lemma page_labels_append page_data page_chunks chunks :
  map page_label (append_chunks page_data page_chunks chunks)
  = map page_label chunks ++ map (λ t, (page page_data, t)) page_chunks.
Proof.
  unfold append_chunks. revert chunks.
  induction page_chunks as [|t ts IH]; intros chunks; simpl.
  - by rewrite app_nil_r.
  - rewrite IH, map_app. simpl. by rewrite <- app_assoc.
Qed.

Lemma for_each_page_labels f page_map acc r :
  for_each page_map
    (λ chunks page_data,
       page_chunks ← f (text page_data);
       Ok (append_chunks page_data page_chunks chunks)) acc = Ok r →
  ∃ tss,
    Forall2 (λ p ts, f (text p) = Ok ts) page_map tss
    ∧ map page_label r
      = map page_label acc
        ++ concat (zip_with (λ p ts, map (λ t, (page p, t)) ts) page_map tss).
Proof.
  revert acc. induction page_map as [|p pm IH]; intros acc; simpl.
  - intros [= <-]. exists []. split; [constructor|]. by rewrite app_nil_r.
  - destruct (f (text p)) as [ts| |] eqn:E; simpl; [|done|done].
    intros Hr. destruct (IH _ Hr) as (tss & Hall & Hlab).
    exists (ts :: tss). split; [by constructor|].
    rewrite Hlab, page_labels_append. simpl. by rewrite <- app_assoc.
Qed.

(** X2. The chunks of a successful call are the per-page results laid end
    to end in page-map order: each page is split on its own by the
    method's splitter, each chunk carries the number of the page it was cut
    from, and its [page_range] is that number written out. *)
Theorem chunks_follow_pages `{RecursiveCharacterTextSplitter} fuel now txt
    method md page_map chunk_size chunk_overlap separators rec :
  chunk_text fuel now txt method md page_map chunk_size chunk_overlap separators
  = Ok rec →
  ∃ pm f tss,
    page_map = Some pm
    ∧ method_splitter fuel method chunk_size chunk_overlap separators = Some f
    ∧ Forall2 (λ p ts, f (text p) = Ok ts) pm tss
    ∧ map page_label (chunks rec)
      = concat (zip_with (λ p ts, map (λ t, (page p, t)) ts) pm tss)
    ∧ Forall (λ c, page_range (metadata c)
                   = str_of_int (page_number (metadata c))) (chunks rec).
Proof.
  intros Hrec.
  assert (Forall (λ c, page_range (metadata c)
                       = str_of_int (page_number (metadata c))) (chunks rec))
    as Hrange.
  { revert Hrec. apply chunk_text_invariant; [|constructor].
    intros cs p t Hcs. apply Forall_app. split; [done|].
    by repeat constructor. }
  apply chunk_text_Ok_inv in Hrec as (pm & f & -> & _ & Hf & Hb & _).
  apply for_each_page_labels in Hb as (tss & Hall & Hlab).
  exists pm, f, tss. by repeat split.
Qed.

Lemma chunks_follow_pages_witness :
  ∃ rec,
    @chunk_text whole_text_splitter 8 (py "2024-05-01T10:00:00") (py "")
      (py "fixed_size") ∅
      (Some [{| page := 5; text := py "a b c" |};
             {| page := 2; text := py " " |};
             {| page := 9; text := py "d e f" |}]) 12 0 None = Ok rec
    ∧ map page_label (chunks rec)
      = [(5, py "a b"); (5, py "c"); (9, py "d e"); (9, py "f")].
Proof.
  eexists. split; [vm_compute; reflexivity|].
  destruct (@chunks_follow_pages whole_text_splitter 8
    (py "2024-05-01T10:00:00") (py "") (py "fixed_size") ∅
    (Some [{| page := 5; text := py "a b c" |};
           {| page := 2; text := py " " |};
           {| page := 9; text := py "d e f" |}]) 12 0 None _ eq_refl)
    as (pm & f & tss & _ & _ & _ & _ & _).
  reflexivity.
Defined.

(** X3. The header of the returned record: [total_pages] counts the entries
    of the page map (not the chunks), [chunking_method] is the method asked
    for, [timestamp] the time of the call, and [filename] and
    [loading_method] are read from [metadata], the empty string standing
    for a key that is absent. *)
Theorem record_header `{RecursiveCharacterTextSplitter} fuel now txt method md
    page_map chunk_size chunk_overlap separators rec :
  chunk_text fuel now txt method md page_map chunk_size chunk_overlap separators
  = Ok rec →
  (∃ pm, page_map = Some pm ∧ total_pages rec = len pm)
  ∧ chunking_method rec = method
  ∧ timestamp rec = now
  ∧ filename rec = default [] (md !! py "filename")
  ∧ loading_method rec = default [] (md !! py "loading_method")
  ∧ (md !! py "filename" = None → filename rec = [])
  ∧ (md !! py "loading_method" = None → loading_method rec = []).
Proof.
  rewrite chunk_text_unfold.
  destruct page_map as [[|p pm]|]; [done| |done].
  destruct (method_splitter _ _ _ _ _) as [f|]; [|done].
  destruct (splitter_branch f (p :: pm)) as [cs| |]; simpl; [|done|done].
  intros [= <-]. simpl. repeat split; [by eexists| |]; by intros ->.
Qed.

Lemma record_header_witness :
  ∃ rec,
    @chunk_text whole_text_splitter 0 (py "2024-05-01T10:00:00") (py "")
      (py "by_paragraphs")
      {[ py "filename" := py "report.pdf" ]}
      (Some [{| page := 1; text := py "a" |}; {| page := 2; text := py "" |}])
      1000 200 None = Ok rec
    ∧ filename rec = py "report.pdf"
    ∧ loading_method rec = []
    ∧ total_pages rec = 2
    ∧ total_chunks rec = 1.
Proof.
  eexists. split; [vm_compute; reflexivity|].
  destruct (@record_header whole_text_splitter 0
    (py "2024-05-01T10:00:00") (py "") (py "by_paragraphs")
    {[ py "filename" := py "report.pdf" ]}
    (Some [{| page := 1; text := py "a" |}; {| page := 2; text := py "" |}])
    1000 200 None _ eq_refl) as (_ & _ & _ & Hf & Hl & _ & _).
  split; [exact Hf|]. split; [exact Hl|]. split; reflexivity.
Defined.

(** ** When the fixed-size splitter returns *)

(** X4. [_fixed_size_chunks] returns (given enough iterations) exactly when
    [chunk_size <= 0], or the overlap in words is below the window in words,
    or the page has no more words than one window; in every other case no
    number of iterations is enough. *)
Theorem fixed_size_returns_iff text chunk_size chunk_overlap :
  (∃ fuel r, _fixed_size_chunks fuel text chunk_size chunk_overlap = Ok r)
  ↔ (chunk_size ≤ 0
     ∨ overlap_words chunk_overlap < words_per_chunk chunk_size
     ∨ len (split text) ≤ words_per_chunk chunk_size).
Proof.
  split.
  - intros (fuel & r & Hr).
    destruct (Z_le_gt_dec chunk_size 0) as [?|Hs]; [by left|].
    destruct (Z_lt_le_dec (overlap_words chunk_overlap)
                (words_per_chunk chunk_size)) as [?|Ho]; [by right; left|].
    destruct (Z_le_gt_dec (len (split text)) (words_per_chunk chunk_size))
      as [?|Hl]; [by right; right|].
    rewrite fixed_size_chunks_diverges in Hr by lia. done.
  - intros [Hs|Hc].
    + exists 0%nat, [text]. unfold _fixed_size_chunks.
      by destruct (Z.leb_spec chunk_size 0); [|lia].
    + destruct (fixed_size_chunks_returns text chunk_size chunk_overlap Hc)
        as [r Hr].
      exists (S (length (split text))), r. apply Hr. lia.
Qed.

Lemma fixed_size_returns_iff_witness :
  (∃ fuel r, _fixed_size_chunks fuel (py "a b c") 30 6 = Ok r)
  ∧ ¬ (∃ fuel r, _fixed_size_chunks fuel (py "a b c") 11 10 = Ok r).
Proof.
  split.
  - apply (proj2 (fixed_size_returns_iff (py "a b c") 30 6)).
    right. left. reflexivity.
  - intros H.
    apply (proj1 (fixed_size_returns_iff (py "a b c") 11 10)) in H.
    vm_compute in H.
    destruct H as [H|[H|H]]; first [discriminate|by apply H].
Defined.

(** X5. In terms of the arguments: a [chunk_overlap] below 6, or at least 6
    below [chunk_size], is enough for [_fixed_size_chunks] to return, within
    one more iteration than the page has words. ([chunk_overlap <
    chunk_size] alone is not: sizes 11 and 10 give a window and an overlap
    of one word each.) *)
Theorem fixed_size_returns_with_small_overlap text chunk_size chunk_overlap :
  chunk_overlap < 6 ∨ chunk_overlap + 6 ≤ chunk_size →
  ∃ r, ∀ fuel, (length (split text) < fuel)%nat →
    _fixed_size_chunks fuel text chunk_size chunk_overlap = Ok r.
Proof.
  intros Hc. apply fixed_size_chunks_returns. left.
  pose proof (words_per_chunk_pos chunk_size) as Hw.
  unfold overlap_words, words_per_chunk, avg_word_len in *.
  change (5 + 1) with 6 in *.
  destruct (Z.leb_spec chunk_overlap 0); [lia|].
  destruct Hc as [Hc|Hc].
  - rewrite Z.div_small by lia. lia.
  - assert (chunk_overlap / 6 + 1 ≤ chunk_size / 6); [|lia].
    replace (chunk_overlap / 6 + 1) with ((chunk_overlap + 1 * 6) / 6)
      by (by rewrite Z.div_add).
    apply Z.div_le_mono; lia.
Qed.

Lemma fixed_size_returns_with_small_overlap_witness :
  (200 < 6 ∨ 200 + 6 ≤ 1000)
  ∧ ∃ r, ∀ fuel, (length (split (py "a b c")) < fuel)%nat →
      _fixed_size_chunks fuel (py "a b c") 1000 200 = Ok r.
Proof.
  assert (200 < 6 ∨ 200 + 6 ≤ 1000) as Hc by (right; lia).
  split; [exact Hc|].
  exact (fixed_size_returns_with_small_overlap (py "a b c") 1000 200 Hc).
Defined.

(** ** The windows of the fixed-size splitter *)

(** X6. With [chunk_size > 0] and an overlap below the window, the chunk
    at position [i] of a page is the window of [words_per_chunk] words that
    starts at word [i * (words_per_chunk - overlap_words)], joined by single
    spaces; the last chunk is the first window whose end reaches the end of
    the words, and a page without words gives no chunk. *)
Theorem fixed_size_chunks_closed_form fuel text chunk_size chunk_overlap r :
  let words := split text in
  let wpc := words_per_chunk chunk_size in
  let step := words_per_chunk chunk_size - overlap_words chunk_overlap in
  0 < chunk_size →
  overlap_words chunk_overlap < words_per_chunk chunk_size →
  _fixed_size_chunks fuel text chunk_size chunk_overlap = Ok r →
  ∃ m : nat,
    r = map (λ i : nat, join (py " ")
                          (slice words (Z.of_nat i * step)
                             (Z.of_nat i * step + wpc)))
          (seq 0 m)
    ∧ (∀ i, (S i < m)%nat → Z.of_nat i * step + wpc < len words)
    ∧ (words = [] → m = 0%nat)
    ∧ (words ≠ [] →
       (0 < m)%nat ∧ len words ≤ (Z.of_nat m - 1) * step + wpc).
Proof.
  intros words wpc step Hs Ho Hr.
  destruct (decide (words = [])) as [Hnil|Hne].
  - exists 0%nat.
    rewrite (fixed_size_chunks_Ok_no_words _ _ _ _ _ Hs Hnil Hr).
    split; [done|]. split; [intros; lia|]. by split.
  - destruct (fixed_size_chunks_run _ _ _ _ _ Hs Ho Hne Hr)
      as (m & -> & Hlast & Hbefore).
    exists (S m). split; [done|]. split; [|split; [done|]].
    + intros i Hi. apply Hbefore. lia.
    + intros _. split; [lia|].
      replace (Z.of_nat (S m) - 1) with (Z.of_nat m) by lia. exact Hlast.
Qed.

Lemma fixed_size_chunks_closed_form_witness :
  0 < 30 ∧ overlap_words 6 < words_per_chunk 30
  ∧ _fixed_size_chunks 5 (py "a b c d e f g h i j k l") 30 6
    = Ok [py "a b c d e"; py "e f g h i"; py "i j k l"]
  ∧ ∃ m : nat,
      [py "a b c d e"; py "e f g h i"; py "i j k l"]
      = map (λ i : nat, join (py " ")
               (slice (split (py "a b c d e f g h i j k l"))
                  (Z.of_nat i * (words_per_chunk 30 - overlap_words 6))
                  (Z.of_nat i * (words_per_chunk 30 - overlap_words 6)
                   + words_per_chunk 30)))
          (seq 0 m).
Proof.
  split; [lia|]. split; [reflexivity|]. split; [reflexivity|].
  destruct (fixed_size_chunks_closed_form 5 (py "a b c d e f g h i j k l")
              30 6 [py "a b c d e"; py "e f g h i"; py "i j k l"]
              ltac:(reflexivity) ltac:(reflexivity) eq_refl)
    as (m & Hm & _).
  exists m. exact Hm.
Defined.

(** ** Sizes of the fixed-size chunks *)

Lemma fixed_size_loop_sizes fuel words wpc ow start chunks r :
  Forall is_word words → 0 ≤ start → 0 < wpc →
  fixed_size_loop fuel words wpc ow start chunks = Ok r →
  Forall (λ c, 1 ≤ len (split c) ≤ wpc) chunks →
  Forall (λ c, 1 ≤ len (split c) ≤ wpc) r.
Proof.
  intros Hw. revert start chunks r.
  induction fuel as [|fuel IH]; intros start chunks r Hs Hp; [done|].
  destruct (Z_lt_le_dec start (len words)) as [Hl|Hl].
  - rewrite fixed_size_loop_step by done. cbn zeta.
    assert (1 ≤ len (split (join (py " ")
                 (slice words start (Z.min (len words) (start + wpc))))) ≤ wpc)
      as Hnew.
    { rewrite split_join by by apply slice_Forall.
      unfold len at 1 3. rewrite slice_length by lia. lia. }
    destruct (_ >=? _).
    + intros [= <-] Hc. apply Forall_app. split; [done|].
      constructor; [done|constructor].
    + intros Hr Hc. eapply IH; [| |exact Hr|]; [lia|done|].
      apply Forall_app. split; [done|]. constructor; [done|constructor].
  - cbn [fixed_size_loop]. destruct (Z.ltb_spec start (len words)); [lia|].
    by intros [= <-].
Qed.

(** X7. In a successful [fixed_size] call with [chunk_size > 0] every chunk
    holds at least one word and at most [max(1, chunk_size // 6)] words,
    and its [word_count] says so. *)
Theorem fixed_size_word_counts `{RecursiveCharacterTextSplitter} fuel now txt
    md page_map chunk_size chunk_overlap separators rec :
  0 < chunk_size →
  chunk_text fuel now txt (py "fixed_size") md page_map chunk_size
    chunk_overlap separators = Ok rec →
  Forall (λ c, 1 ≤ word_count (metadata c) ≤ Z.max 1 (chunk_size / 6))
    (chunks rec).
Proof.
  intros Hs Hrec.
  apply chunk_text_Ok_inv in Hrec as (pm & f & _ & _ & Hf & Hb & _).
  rewrite method_splitter_fixed_size in Hf. injection Hf as <-.
  eapply splitter_branch_invariant
    with (Q := λ c, 1 ≤ len (split c) ≤ words_per_chunk chunk_size);
    [| |constructor|exact Hb].
  - intros cs p t Ht Hcs. apply Forall_app. split; [done|].
    constructor; [exact Ht|constructor].
  - intros p ts _. unfold _fixed_size_chunks.
    destruct (Z.leb_spec chunk_size 0); [lia|].
    intros Hr. eapply fixed_size_loop_sizes; [| | |exact Hr|constructor].
    + apply split_words_are_words.
    + done.
    + pose proof (words_per_chunk_pos chunk_size). lia.
Qed.

Lemma fixed_size_word_counts_witness :
  ∃ rec,
    0 < 30
    ∧ @chunk_text whole_text_splitter 8 (py "2024-05-01T10:00:00") (py "")
        (py "fixed_size") ∅
        (Some [{| page := 1; text := py "a b c d e f g h i j k l" |}])
        30 6 None = Ok rec
    ∧ map (λ c, word_count (metadata c)) (chunks rec) = [5; 5; 4].
Proof.
  eexists. split; [lia|]. split; [vm_compute; reflexivity|].
  pose proof (@fixed_size_word_counts whole_text_splitter 8
    (py "2024-05-01T10:00:00") (py "") ∅
    (Some [{| page := 1; text := py "a b c d e f g h i j k l" |}])
    30 6 None _ ltac:(reflexivity) eq_refl) as _.
  reflexivity.
Defined.

(** ** Overlap and coverage of the fixed-size chunks *)

Lemma map_lookup {A B} (f : A → B) (l : list A) i :
  map f l !! i = f <$> l !! i.
Proof. revert i. induction l as [|x l IH]; intros [|i]; simpl; auto. Qed.

Lemma imap_ignore_index {A B} (f : A → B) (l : list A) :
  imap (λ _, f) l = map f l.
Proof. induction l as [|x l IH]; [done|]. rewrite imap_cons. simpl. by f_equal. Qed.

(** X8. With [chunk_size > 0] and an overlap below the window, two
    consecutive chunks of a page share exactly [overlap_words] words: the
    earlier chunk is a full window, and its last [overlap_words] words are
    the first [overlap_words] words of the later chunk, which goes on with
    at least one new word. *)
Theorem fixed_size_consecutive_overlap fuel text chunk_size chunk_overlap r i
    a b :
  0 < chunk_size →
  overlap_words chunk_overlap < words_per_chunk chunk_size →
  _fixed_size_chunks fuel text chunk_size chunk_overlap = Ok r →
  r !! i = Some a → r !! S i = Some b →
  len (split a) = words_per_chunk chunk_size
  ∧ drop (Z.to_nat (words_per_chunk chunk_size - overlap_words chunk_overlap))
      (split a)
    = take (Z.to_nat (overlap_words chunk_overlap)) (split b)
  ∧ overlap_words chunk_overlap < len (split b).
Proof.
  intros Hs Ho Hr Ha Hb.
  pose proof (split_words_are_words text) as Hw.
  pose proof (overlap_words_nonneg chunk_overlap) as Hov.
  destruct (decide (split text = [])) as [Hnil|Hne].
  { by rewrite (fixed_size_chunks_Ok_no_words _ _ _ _ _ Hs Hnil Hr) in Ha. }
  destruct (fixed_size_chunks_run _ _ _ _ _ Hs Ho Hne Hr)
    as (m & -> & _ & Hfull).
  rewrite map_lookup in Ha, Hb.
  destruct (seq 0 (S m) !! i) as [i'|] eqn:Ei; [|done].
  destruct (seq 0 (S m) !! S i) as [j'|] eqn:Ej; [|done].
  apply lookup_seq in Ei as [-> _]. apply lookup_seq in Ej as [-> Hj].
  simpl in Ha, Hb. injection Ha as <-. injection Hb as <-.
  specialize (Hfull i ltac:(lia)). unfold window.
  set (words := split text) in *.
  set (wpc := words_per_chunk chunk_size) in *.
  set (ow := overlap_words chunk_overlap) in *.
  set (s := Z.of_nat i * (wpc - ow)) in *.
  replace (Z.of_nat (S i) * (wpc - ow)) with (s + (wpc - ow))
    by (unfold s; lia).
  assert (0 ≤ s) as Hs0 by (unfold s; nia).
  rewrite !split_join by by apply slice_Forall.
  rewrite !slice_take_drop by (unfold len in *; lia).
  unfold len in *.
  replace (Z.to_nat (s + wpc - s)) with (Z.to_nat wpc) by lia.
  replace (Z.to_nat (s + (wpc - ow) + wpc - (s + (wpc - ow))))
    with (Z.to_nat wpc) by lia.
  split; [|split].
  - rewrite length_take, length_drop. lia.
  - rewrite take_take.
    replace (Z.to_nat ow `min` Z.to_nat wpc)%nat with (Z.to_nat ow) by lia.
    replace (Z.to_nat wpc)
      with (Z.to_nat (wpc - ow) + Z.to_nat ow)%nat at 1 by lia.
    rewrite <- take_drop_commute, drop_drop. do 2 f_equal. lia.
  - rewrite length_take, length_drop. lia.
Qed.

Lemma fixed_size_consecutive_overlap_witness :
  0 < 30 ∧ overlap_words 6 < words_per_chunk 30
  ∧ _fixed_size_chunks 5 (py "a b c d e f g h i j k l") 30 6
    = Ok [py "a b c d e"; py "e f g h i"; py "i j k l"]
  ∧ drop (Z.to_nat (words_per_chunk 30 - overlap_words 6))
      (split (py "e f g h i"))
    = take (Z.to_nat (overlap_words 6)) (split (py "i j k l")).
Proof.
  split; [lia|]. split; [reflexivity|]. split; [reflexivity|].
  destruct (fixed_size_consecutive_overlap 5 (py "a b c d e f g h i j k l")
              30 6 [py "a b c d e"; py "e f g h i"; py "i j k l"] 1
              (py "e f g h i") (py "i j k l")) as (_ & H & _);
    [lia|reflexivity|reflexivity|reflexivity|reflexivity|exact H].
Defined.

Lemma cover_from (words : list str) wpc ow k s :
  0 ≤ ow → ow < wpc → 0 ≤ s → s < len words →
  (Z.to_nat (len words - s) ≤ k)%nat →
  concat (map (λ b, drop (Z.to_nat ow) (slice words b (b + wpc)))
            (spec_window_starts k (len words) wpc (wpc - ow) s))
  = drop (Z.to_nat (s + ow)) words.
Proof.
  intros Ho Hlt. revert s.
  induction k as [|k IH]; intros s Hs Hl Hk; [lia|].
  cbn [spec_window_starts map concat].
  rewrite slice_take_drop by lia.
  replace (Z.to_nat (s + wpc - s)) with (Z.to_nat wpc) by lia.
  replace (Z.to_nat (s + ow)) with (Z.to_nat s + Z.to_nat ow)%nat by lia.
  rewrite <- drop_drop.
  destruct (Z.leb_spec (len words) (s + wpc)) as [Hend|Hend].
  - simpl. rewrite app_nil_r, take_ge; [done|].
    rewrite length_drop. unfold len in *. lia.
  - rewrite IH by lia. symmetry.
    rewrite <- (take_drop (Z.to_nat wpc) (drop (Z.to_nat s) words)) at 1.
    rewrite drop_app_le
      by (rewrite length_take, length_drop; unfold len in *; lia).
    f_equal. rewrite drop_drop. f_equal. lia.
Qed.

(** X9. With [chunk_size > 0] and an overlap below the window, the chunks
    of a page hold all of its words, in order and without gaps: the words
    of the first chunk, followed by the words of every later chunk after
    its first [overlap_words] words, are exactly the words of the page. *)
Theorem fixed_size_chunks_cover_words fuel text chunk_size chunk_overlap r :
  0 < chunk_size →
  overlap_words chunk_overlap < words_per_chunk chunk_size →
  _fixed_size_chunks fuel text chunk_size chunk_overlap = Ok r →
  concat (imap (fresh_words (overlap_words chunk_overlap)) r) = split text.
Proof.
  intros Hs Ho Hr.
  pose proof (split_words_are_words text) as Hw.
  pose proof (overlap_words_nonneg chunk_overlap) as Hov.
  destruct (decide (split text = [])) as [Hnil|Hne].
  { by rewrite (fixed_size_chunks_Ok_no_words _ _ _ _ _ Hs Hnil Hr), Hnil. }
  destruct (fixed_size_chunks_Ok_windows _ _ _ _ _ Hs Ho Hne Hr)
    as (k & Hk & ->).
  set (words := split text) in *.
  set (wpc := words_per_chunk chunk_size) in *.
  set (ow := overlap_words chunk_overlap) in *.
  assert (0 < len words) as Hlen.
  { unfold len. destruct words; [done|]. simpl. lia. }
  destruct k as [|k]; [unfold len in *; lia|].
  cbn [spec_window_starts map]. rewrite imap_cons. cbn [concat fresh_words].
  rewrite split_window by done.
  rewrite (imap_ext _ (λ _ c, drop (Z.to_nat ow) (split c))) by done.
  rewrite imap_ignore_index, map_map.
  rewrite (map_ext _ (λ b, drop (Z.to_nat ow) (slice words b (b + wpc))))
    by (intros b; by rewrite split_window).
  rewrite slice_take_drop by lia.
  replace (Z.to_nat (0 + wpc - 0)) with (Z.to_nat wpc) by lia.
  change (Z.to_nat 0) with 0%nat. rewrite drop_0.
  destruct (Z.leb_spec (len words) (0 + wpc)) as [Hend|Hend].
  - simpl. rewrite app_nil_r, take_ge; [done|]. unfold len in *. lia.
  - rewrite cover_from by (unfold len in *; lia).
    replace (Z.to_nat (0 + (wpc - ow) + ow)) with (Z.to_nat wpc) by lia.
    apply take_drop.
Qed.

Lemma fixed_size_chunks_cover_words_witness :
  0 < 30 ∧ overlap_words 6 < words_per_chunk 30
  ∧ _fixed_size_chunks 5 (py "a b c d e f g h i j k l") 30 6
    = Ok [py "a b c d e"; py "e f g h i"; py "i j k l"]
  ∧ concat (imap (fresh_words (overlap_words 6))
              [py "a b c d e"; py "e f g h i"; py "i j k l"])
    = split (py "a b c d e f g h i j k l").
Proof.
  split; [lia|]. split; [reflexivity|]. split; [reflexivity|].
  apply (fixed_size_chunks_cover_words 5 (py "a b c d e f g h i j k l") 30 6);
    [lia|reflexivity|reflexivity].
Defined.

(** ** Paragraphs *)

Lemma split_blank_lines_cons cur c s :
  split_blank_lines cur (c :: s)
  = match s with
    | d :: s' =>
        if decide (c = 10%N ∧ d = 10%N) then cur :: split_blank_lines [] s'
        else split_blank_lines (cur ++ [c]) s
    | [] => split_blank_lines (cur ++ [c]) s
    end.
Proof.
  destruct s as [|d s'].
  - cbn [split_blank_lines].
    repeat match goal with
           | |- context [match ?x with _ => _ end] => destruct x
           end; done.
  - destruct (decide (c = 10%N ∧ d = 10%N)) as [[-> ->]|Hn]; [done|].
    cbn [split_blank_lines].
    repeat match goal with
           | |- context [match ?x with _ => _ end] =>
               is_var x; destruct x
           end; try done; exfalso; by apply Hn.
Qed.

Lemma split_blank_lines_join_le n :
  ∀ s cur, (length s ≤ n)%nat →
    split_blank_lines cur s ≠ []
    ∧ join [10%N; 10%N] (split_blank_lines cur s) = cur ++ s.
Proof.
  induction n as [|n IH]; intros s cur Hn.
  - destruct s; [|simpl in Hn; lia]. split; [done|]. symmetry.
    apply app_nil_r.
  - destruct s as [|c s]; [split; [done|]; symmetry; apply app_nil_r|].
    rewrite split_blank_lines_cons. simpl in Hn.
    destruct s as [|d s'].
    + by split.
    + destruct (decide (c = 10%N ∧ d = 10%N)) as [[-> ->]|_].
      * split; [done|]. rewrite join_cons.
        destruct (IH s' [] ltac:(simpl in Hn; lia)) as [Hne Hj].
        destruct (split_blank_lines [] s'); [done|]. by rewrite Hj.
      * destruct (IH (d :: s') (cur ++ [c]) ltac:(lia)) as [Hne Hj].
        split; [done|]. by rewrite Hj, <- app_assoc.
Qed.

(** Putting the pieces of [text.split('\n\n')] back together with the
    separator gives the text. *)
Lemma split_blank_lines_join text :
  join [10%N; 10%N] (split_blank_lines [] text) = text.
Proof. by apply (split_blank_lines_join_le (length text)). Qed.

Lemma join_blank sep l : blank (join sep l) → Forall blank l.
Proof.
  unfold blank. induction l as [|x l IH]; [constructor|].
  rewrite join_cons. destruct l as [|y l].
  - by repeat constructor.
  - intros H. apply Forall_app in H as [Hx H].
    apply Forall_app in H as [_ H]. constructor; [done|by apply IH].
Qed.

Lemma paragraph_chunks_blank text : blank text → _paragraph_chunks text = [].
Proof.
  intros Hb. unfold _paragraph_chunks.
  rewrite <- (split_blank_lines_join text) in Hb. apply join_blank in Hb.
  induction Hb as [|p l Hp _ IH]; [done|]. simpl.
  apply strip_nil_iff in Hp. by rewrite Hp.
Qed.

Lemma split_blank text : blank text → split text = [].
Proof.
  unfold split, blank. induction 1 as [|c s Hc _ IH]; [done|].
  simpl. by rewrite Hc.
Qed.

Lemma has_blank_line_length s : has_blank_line s → (2 ≤ length s)%nat.
Proof. intros (a & b & ->). rewrite !length_app. simpl. lia. Qed.

Lemma has_blank_line_cons c s : has_blank_line s → has_blank_line (c :: s).
Proof. intros (a & b & ->). by exists (c :: a), b. Qed.

Lemma has_blank_line_snoc s x :
  has_blank_line (s ++ [x]) →
  has_blank_line s ∨ (x = 10%N ∧ ∃ a, s = a ++ [10%N]).
Proof.
  intros (a & b & H). destruct b as [|y b _] using rev_ind.
  - right. change (a ++ [10%N; 10%N] ++ []) with (a ++ [10%N; 10%N]) in H.
    replace (a ++ [10%N; 10%N]) with ((a ++ [10%N]) ++ [10%N]) in H
      by (by rewrite <- app_assoc).
    apply app_inj_tail in H as [-> ->]. split; [done|by exists a].
  - left. exists a, b.
    replace (a ++ [10%N; 10%N] ++ b ++ [y])
      with ((a ++ [10%N; 10%N] ++ b) ++ [y]) in H
      by (by rewrite <- !app_assoc).
    by apply app_inj_tail in H as [-> _].
Qed.

(** [text.split('\n\n')] cuts at the first separator, then goes on behind
    it. *)
Lemma split_blank_lines_pieces_le n :
  ∀ s cur, (length s ≤ n)%nat →
    ¬ has_blank_line (cur ++ take 1 s) →
    blank_line_pieces (cur ++ s) (split_blank_lines cur s).
Proof.
  induction n as [|n IH]; intros s cur Hn Hcur.
  - destruct s; [|simpl in Hn; lia]. simpl in *. rewrite app_nil_r in *.
    by constructor.
  - destruct s as [|c s].
    { simpl in *. rewrite app_nil_r in *. by constructor. }
    rewrite split_blank_lines_cons. simpl in Hn.
    destruct s as [|d s'].
    + simpl in *. by constructor.
    + simpl in Hcur.
      destruct (decide (c = 10%N ∧ d = 10%N)) as [[-> ->]|Hcd].
      * apply (pieces_cut cur s'); [done|].
        apply (IH s' []); [simpl in Hn; lia|].
        intros Hb. apply has_blank_line_length in Hb.
        rewrite app_nil_l, length_take in Hb. lia.
      * replace (cur ++ c :: d :: s') with ((cur ++ [c]) ++ d :: s')
          by (by rewrite <- app_assoc).
        apply IH; [lia|]. simpl.
        intros Hb. apply has_blank_line_snoc in Hb as [Hb|[-> [a Ha]]];
          [done|].
        apply app_inj_tail in Ha as [_ ->]. by apply Hcd.
Qed.

Lemma split_blank_lines_pieces text :
  blank_line_pieces text (split_blank_lines [] text).
Proof.
  apply (split_blank_lines_pieces_le (length text) text []); [done|].
  intros Hb. apply has_blank_line_length in Hb.
  rewrite app_nil_l, length_take in Hb. lia.
Qed.

(** The first separator of a text is in one place. *)
Lemma first_cut_unique p r p' r' :
  p ++ [10%N; 10%N] ++ r = p' ++ [10%N; 10%N] ++ r' →
  ¬ has_blank_line (p ++ [10%N]) → ¬ has_blank_line (p' ++ [10%N]) →
  p = p' ∧ r = r'.
Proof.
  revert p'. induction p as [|x p IH]; intros p' Heq Hp Hp'.
  - destruct p' as [|x' [|y' p']]; simpl in Heq.
    + by injection Heq as <-.
    + injection Heq as <- _. exfalso. apply Hp'. by exists [], [].
    + injection Heq as <- <- _. exfalso. apply Hp'.
      by exists [], (p' ++ [10%N]).
  - destruct p' as [|x' p']; simpl in Heq.
    + exfalso. destruct p as [|y p]; simpl in Heq.
      * injection Heq as -> _. apply Hp. by exists [], [].
      * injection Heq as -> -> _. apply Hp. by exists [], (p ++ [10%N]).
    + injection Heq as <- Heq.
      destruct (IH p' Heq) as [-> ->]; [| |done].
      * intros Hb. apply Hp. by apply has_blank_line_cons.
      * intros Hb. apply Hp'. by apply has_blank_line_cons.
Qed.

(** A text has one list of pieces. *)
Lemma blank_line_pieces_unique text pieces pieces' :
  blank_line_pieces text pieces → blank_line_pieces text pieces' →
  pieces = pieces'.
Proof.
  intros H. revert pieces'.
  induction H as [text Hno|p rest pieces Hp Hrest IH]; intros pieces' H'.
  - inversion H' as [? _|p' rest' ps' Hp' Hrest' Heq]; subst; [done|].
    exfalso. apply Hno. by exists p', rest'.
  - inversion H' as [? Hno'|p' rest' ps' Hp' Hrest' Heq]; subst.
    + exfalso. apply Hno'. by exists p, rest.
    + apply first_cut_unique in Heq as [-> ->]; [|done|done].
      f_equal. by apply IH.
Qed.

(** X10. The paragraph chunks of a page are the pieces between its
    separators of two line feeds (found from left to right, without
    overlap), those that are not blank, each with its leading and trailing
    whitespace removed: every text has exactly one list of such pieces, the
    pieces joined by the separator give the text back, the chunks are the
    trimmed non-blank pieces in order, and every chunk is non-empty and
    neither starts nor ends with whitespace. *)
Theorem paragraph_chunks_trimmed text :
  (∃ pieces, blank_line_pieces text pieces)
  ∧ (∀ pieces,
       blank_line_pieces text pieces →
       join [10%N; 10%N] pieces = text
       ∧ _paragraph_chunks text
         = map strip (List.filter (λ p, truthy (strip p)) pieces))
  ∧ Forall (λ c, c ≠ [] ∧ strip c = c) (_paragraph_chunks text).
Proof.
  pose proof (split_blank_lines_pieces text) as Hpieces.
  split; [by eexists|]. split.
  - intros pieces Hp.
    rewrite (blank_line_pieces_unique _ _ _ Hp Hpieces).
    split; [apply split_blank_lines_join|done].
  - unfold _paragraph_chunks. apply Forall_forall. intros c Hc.
    apply list_elem_of_In, in_map_iff in Hc as (p & <- & Hp).
    apply filter_In in Hp as [_ Hp]. split; [by apply truthy_true|].
    apply strip_idemp.
Qed.

Lemma paragraph_chunks_trimmed_witness :
  blank_line_pieces (py " a" ++ [10; 10; 10]%N ++ py "b ")
    [py " a"; [10%N] ++ py "b "]
  ∧ _paragraph_chunks (py " a" ++ [10; 10; 10]%N ++ py "b ")
    = [py "a"; py "b"].
Proof.
  assert (blank_line_pieces (py " a" ++ [10; 10; 10]%N ++ py "b ")
            [py " a"; [10%N] ++ py "b "]) as Hp.
  { apply (pieces_cut (py " a") ([10%N] ++ py "b ") [[10%N] ++ py "b "]).
    - intros (a & b & H).
      do 4 (destruct a as [|? a]; [discriminate H|]; try discriminate H).
    - constructor. intros (a & b & H).
      do 5 (destruct a as [|? a]; [discriminate H|]; try discriminate H). }
  split; [exact Hp|].
  exact (proj2 (proj1 (proj2 (paragraph_chunks_trimmed
    (py " a" ++ [10; 10; 10]%N ++ py "b "))) _ Hp)).
Defined.

(** ** Blank pages *)

Lemma splitter_branch_no_chunks f page_map :
  Forall (λ p, f (text p) = Ok []) page_map →
  splitter_branch f page_map = Ok [].
Proof.
  unfold splitter_branch. intros Hall. generalize (@nil Chunk).
  induction Hall as [|p pm Hp _ IH]; intros acc; simpl; [done|].
  rewrite Hp. simpl. apply IH.
Qed.

(** X11. A non-empty page map whose pages are all empty or whitespace is
    not an error for [by_paragraphs] and for [fixed_size] with [chunk_size >
    0]: the call returns a record with no chunk, [total_chunks = 0], and
    [total_pages] the number of pages. *)
Theorem blank_pages_give_no_chunks `{RecursiveCharacterTextSplitter} fuel now
    txt method md page_map chunk_size chunk_overlap separators :
  page_map ≠ [] →
  Forall (λ p, blank (text p)) page_map →
  method = py "by_paragraphs" ∨ (method = py "fixed_size" ∧ 0 < chunk_size) →
  ∃ rec,
    chunk_text (S fuel) now txt method md (Some page_map) chunk_size
      chunk_overlap separators = Ok rec
    ∧ chunks rec = [] ∧ total_chunks rec = 0
    ∧ total_pages rec = len page_map.
Proof.
  intros Hne Hblank Hm. rewrite chunk_text_unfold.
  destruct page_map as [|p0 pm]; [done|].
  assert (∃ f, method_splitter (S fuel) method chunk_size chunk_overlap
                 separators = Some f
               ∧ Forall (λ p, f (text p) = Ok []) (p0 :: pm))
    as (f & -> & Hf).
  { destruct Hm as [->|[-> Hs]].
    - eexists. split; [apply method_splitter_by_paragraphs|].
      eapply Forall_impl; [exact Hblank|]. intros p Hp. simpl.
      by rewrite paragraph_chunks_blank.
    - eexists. split; [apply method_splitter_fixed_size|].
      eapply Forall_impl; [exact Hblank|]. intros p Hp. simpl.
      apply fixed_size_chunks_no_words; [done|by apply split_blank]. }
  rewrite (splitter_branch_no_chunks _ _ Hf). simpl.
  eexists. split; [reflexivity|]. by repeat split.
Qed.

Lemma blank_pages_give_no_chunks_witness :
  [{| page := 1; text := py "  " |}; {| page := 2; text := [10%N; 9%N] |}]
    ≠ []
  ∧ Forall (λ p, blank (text p))
      [{| page := 1; text := py "  " |}; {| page := 2; text := [10%N; 9%N] |}]
  ∧ ∃ rec,
      @chunk_text whole_text_splitter 1 (py "2024-05-01T10:00:00") (py "")
        (py "fixed_size") ∅
        (Some [{| page := 1; text := py "  " |};
               {| page := 2; text := [10%N; 9%N] |}]) 1000 200 None = Ok rec
      ∧ chunks rec = [] ∧ total_chunks rec = 0 ∧ total_pages rec = 2.
Proof.
  assert (Forall (λ p, blank (text p))
            [{| page := 1; text := py "  " |};
             {| page := 2; text := [10%N; 9%N] |}]) as Hb.
  { repeat constructor. }
  split; [discriminate|]. split; [exact Hb|].
  exact (@blank_pages_give_no_chunks whole_text_splitter 0
    (py "2024-05-01T10:00:00") (py "") (py "fixed_size") ∅
    [{| page := 1; text := py "  " |}; {| page := 2; text := [10%N; 9%N] |}]
    1000 200 None ltac:(discriminate) Hb (or_intror (conj eq_refl eq_refl))).
Defined.

(** ** The splitting library seen from [chunk_text] *)

Lemma for_each_raise {A S} (pre : list A) x post (body : S → A → outcome S)
    acc e :
  Forall (λ y, ∀ acc, ∃ acc', body acc y = Ok acc') pre →
  (∀ acc, body acc x = Raise e) →
  for_each (pre ++ x :: post) body acc = Raise e.
Proof.
  intros Hpre Hx. revert acc.
  induction Hpre as [|y pre Hy _ IH]; intros acc; simpl.
  - by rewrite Hx.
  - destruct (Hy acc) as [acc' ->]. simpl. apply IH.
Qed.

(** X12. An exception of the page splitter is the outcome of the call: if
    the splitter of the method returns on the pages before some page and
    raises [e] on that page, [chunk_text] raises [e], whatever pages
    follow; no record is returned. *)
Theorem splitter_error_propagates `{RecursiveCharacterTextSplitter} fuel now
    txt method md pre p post chunk_size chunk_overlap separators f e :
  method_splitter fuel method chunk_size chunk_overlap separators = Some f →
  Forall (λ q, ∃ ts, f (text q) = Ok ts) pre →
  f (text p) = Raise e →
  chunk_text fuel now txt method md (Some (pre ++ p :: post)) chunk_size
    chunk_overlap separators = Raise e.
Proof.
  intros Hf Hpre Hp. rewrite chunk_text_unfold, Hf.
  destruct (pre ++ p :: post) as [|p0 pm] eqn:E;
    [by destruct pre|]. rewrite <- E.
  unfold splitter_branch. rewrite (for_each_raise pre p post _ [] e); [done| |].
  - eapply Forall_impl; [exact Hpre|]. intros q [ts Hq] acc.
    rewrite Hq. by eexists.
  - intros acc. by rewrite Hp.
Qed.

Lemma splitter_error_propagates_witness :
  @chunk_text strict_splitter 0 (py "2024-05-01T10:00:00") (py "")
    (py "by_sentences") ∅
    (Some ([{| page := 1; text := py "One. Two." |}]
           ++ {| page := 2; text := py "" |}
              :: [{| page := 3; text := py "Three." |}])) 1000 200 None
  = Raise (LibraryError (py "empty text")).
Proof.
  apply (@splitter_error_propagates strict_splitter 0
    (py "2024-05-01T10:00:00") (py "") (py "by_sentences") ∅
    [{| page := 1; text := py "One. Two." |}] {| page := 2; text := py "" |}
    [{| page := 3; text := py "Three." |}] 1000 200 None
    (λ t, @_sentence_chunks strict_splitter t 1000 200)).
  - reflexivity.
  - repeat constructor. by eexists.
  - reflexivity.
Defined.

(** X13. [by_sentences] is [by_separators] with the separators ".", "!",
    "?", line feed and space: both calls have the same chunks (or the same
    error); and [by_separators] without separators, or with an empty list,
    is [by_separators] with two line feeds, line feed, ". " and space. *)
Theorem by_sentences_is_by_separators `{RecursiveCharacterTextSplitter} fuel
    now txt md page_map chunk_size chunk_overlap separators :
  chunks <$> chunk_text fuel now txt (py "by_sentences") md page_map chunk_size
               chunk_overlap separators
  = chunks <$> chunk_text fuel now txt (py "by_separators") md page_map
                 chunk_size chunk_overlap
                 (Some [py "."; py "!"; py "?"; [10%N]; py " "])
  ∧ chunk_text fuel now txt (py "by_separators") md page_map chunk_size
      chunk_overlap None
    = chunk_text fuel now txt (py "by_separators") md page_map chunk_size
        chunk_overlap (Some [[10%N; 10%N]; [10%N]; py ". "; py " "])
  ∧ chunk_text fuel now txt (py "by_separators") md page_map chunk_size
      chunk_overlap (Some [])
    = chunk_text fuel now txt (py "by_separators") md page_map chunk_size
        chunk_overlap None.
Proof.
  rewrite !chunk_text_unfold.
  destruct page_map as [[|p pm]|]; [done| |done].
  rewrite method_splitter_by_sentences, !method_splitter_by_separators.
  split; [|done].
  change (λ t, _separator_chunks t chunk_size chunk_overlap
                 (Some [py "."; py "!"; py "?"; [10%N]; py " "]))
    with (λ t, _sentence_chunks t chunk_size chunk_overlap).
  by destruct (splitter_branch _ (p :: pm)).
Qed.

(** * Properties of the document parsing service *)

Ltac py_neq := let H := fresh in intros H; vm_compute in H; discriminate H.

Example parse_file_example :
  (λ r, (Parse.filename r, Parse.total_chunks r, Parse.total_pages r,
         map Parse.content (Parse.chunks r),
         map Parse.chunk_id_of (Parse.chunks r),
         map Parse.page_number_of (Parse.chunks r),
         map (λ c, Parse.metadata c !! py "_known_field_names")
           (Parse.chunks r)))
    <$> @Parse.parse_file Parse.sample_unstructured Parse.no_int_of_str
          (py "2024-05-01T10:00:00") (py "docs/in/report.pdf")
          (py "unstructured") (py "hi_res") None Parse.sample_params
  = Ok (py "report.pdf", 3, 5,
        [py "Title"; py "Body"; py "Table"],
        [Some (Parse.PInt 1); Some (Parse.PInt 2); Some (Parse.PInt 3)],
        [Some (Parse.PInt 2); Some Parse.PNone; Some (Parse.PInt 5)],
        [None; None; None]).
Proof. vm_compute. reflexivity. Qed.

Lemma update_metadata_chunk_id md cid pn e m :
  Parse.update_metadata md cid pn e m !! py "chunk_id" = Some cid.
Proof.
  unfold Parse.update_metadata.
  rewrite !lookup_insert_ne by py_neq. apply lookup_insert_eq.
Qed.

Lemma update_metadata_page_number md cid pn e m :
  Parse.update_metadata md cid pn e m !! py "page_number" = Some pn.
Proof.
  unfold Parse.update_metadata.
  rewrite !lookup_insert_ne by py_neq. apply lookup_insert_eq.
Qed.

Lemma update_metadata_parse_method md cid pn e m :
  Parse.update_metadata md cid pn e m !! py "parse_method"
  = Some (Parse.PStr m).
Proof. unfold Parse.update_metadata. apply lookup_insert_eq. Qed.

Lemma update_metadata_element_type md cid pn e m :
  Parse.update_metadata md cid pn e m !! py "element_type"
  = Some (Parse.PStr (Parse.elem_class_name e)).
Proof.
  unfold Parse.update_metadata.
  rewrite !lookup_insert_ne by py_neq. apply lookup_insert_eq.
Qed.

Lemma update_metadata_other md cid pn e m k :
  k ∉ [py "chunk_id"; py "page_number"; py "element_type"; py "category";
       py "id"; py "parse_method"] →
  Parse.update_metadata md cid pn e m !! k = md !! k.
Proof.
  intros Hk. unfold Parse.update_metadata.
  rewrite !lookup_insert_ne; [done|..]; intros <-; apply Hk; set_solver.
Qed.

Lemma clean_metadata_known_field_names md_raw :
  Parse.clean_metadata md_raw !! py "_known_field_names" = None.
Proof.
  unfold Parse.clean_metadata. by rewrite lookup_fmap, lookup_delete_eq.
Qed.

Lemma clean_metadata_serializable md_raw :
  map_Forall (λ _ v, Parse.json_serializable v = true)
    (Parse.clean_metadata md_raw).
Proof.
  unfold Parse.clean_metadata. intros k v. rewrite lookup_fmap.
  destruct (delete _ md_raw !! k) as [w|]; simpl; [|done].
  intros [= <-]. by destruct (Parse.json_serializable w) eqn:E.
Qed.

(** What one iteration does to the state. *)
Lemma parse_element_Ok `{Parse.Builtins} method st e st' :
  Parse.parse_element method st e = Ok st' →
  (strip (Parse.elem_str e) = [] ∧ st' = st)
  ∨ (strip (Parse.elem_str e) ≠ []
     ∧ ∃ pn,
         st'.1
         = st.1 ++
           [{| Parse.content := strip (Parse.elem_str e);
               Parse.metadata :=
                 Parse.update_metadata
                   (Parse.clean_metadata
                      (default ∅ (Parse.elem_metadata e)))
                   (Parse.PInt (len st.1 + 1)) pn e method |}]
         ∧ ((pn = Parse.PNone ∧ st'.2 = st.2)
            ∨ ∃ n, pn = Parse.PInt n ∧ st'.2 = {[ n ]} ∪ st.2)).
Proof.
  unfold Parse.parse_element.
  destruct (strip (Parse.elem_str e)) as [|c s] eqn:Es; simpl.
  { intros [= <-]. by left. }
  intros Hst. right. split; [done|].
  set (md := Parse.clean_metadata _) in *.
  destruct (if Parse.truth (Parse.get md (py "page_number"))
            then Parse.get md (py "page_number")
            else Parse.get md (py "page")) as [|b|n|s'|o] eqn:Epn.
  - injection Hst as <-. exists Parse.PNone. split; [done|]. by left.
  - simpl in Hst. injection Hst as <-. eexists. split; [done|].
    right. by eexists.
  - simpl in Hst. injection Hst as <-. eexists. split; [done|].
    right. by eexists.
  - simpl in Hst. destruct (Parse.int_of_str s') as [n| |]; [|done|done].
    simpl in Hst. injection Hst as <-. eexists. split; [done|].
    right. by eexists.
  - simpl in Hst. destruct (Parse.obj_int o) as [n| |]; [|done|done].
    simpl in Hst. injection Hst as <-. eexists. split; [done|].
    right. by eexists.
Qed.

(** What a successful call of [parse_file] went through. *)
Lemma parse_file_Ok_inv `{Parse.Unstructured, Parse.Builtins} now file_path
    backend method filename params rec :
  Parse.parse_file now file_path backend method filename params = Ok rec →
  ∃ partition elements st,
    backend = py "unstructured"
    ∧ Parse.partition_pdf = Some partition
    ∧ partition file_path params = Ok elements
    ∧ for_each elements (Parse.parse_element method) ([], ∅) = Ok st
    ∧ rec = {| Parse.filename :=
                 match filename with
                 | Some f => if truthy f then f else basename file_path
                 | None => basename file_path
                 end;
               Parse.total_chunks := len st.1;
               Parse.total_pages := Parse.max_pages st.2;
               Parse.parsing_backend := py "unstructured";
               Parse.parsing_method := method;
               Parse.timestamp := now;
               Parse.chunks := st.1 |}.
Proof.
  unfold Parse.parse_file, Parse._parse_with_unstructured.
  destruct (decide (backend = py "unstructured")) as [->|]; [|done].
  destruct Parse.partition_pdf as [partition|] eqn:Ep; [|done].
  destruct (partition file_path params) as [elements| |] eqn:Ee; simpl;
    [|done|done].
  destruct (for_each elements _ _) as [st| |] eqn:Est; simpl; [|done|done].
  intros [= <-]. by exists partition, elements, st.
Qed.

(** X14. In every record [parse_file] returns, the [chunk_id] entries of
    the chunk metadata are the integers 1, 2, ..., [total_chunks] in output
    order, also when an element carries a [chunk_id] attribute of its own,
    and [total_chunks] is the length of the chunk list. *)
Theorem parse_chunk_ids `{Parse.Unstructured, Parse.Builtins} now file_path
    backend method filename params rec :
  Parse.parse_file now file_path backend method filename params = Ok rec →
  map Parse.chunk_id_of (Parse.chunks rec)
  = map (λ i, Some (Parse.PInt i)) (seqZ 1 (Parse.total_chunks rec))
  ∧ Parse.total_chunks rec = len (Parse.chunks rec).
Proof.
  intros Hrec.
  apply parse_file_Ok_inv in Hrec
    as (partition & elements & st & _ & _ & _ & Hst & ->).
  simpl. split; [|done]. revert Hst.
  apply (for_each_invariant
    (λ st : list Parse.Chunk * gset Z,
       map Parse.chunk_id_of st.1
       = map (λ i, Some (Parse.PInt i)) (seqZ 1 (len st.1)))); [|done].
  intros acc e acc' _ Hacc He.
  apply parse_element_Ok in He as [[_ ->]|(_ & pn & -> & _)]; [done|].
  unfold len in *. rewrite !map_app, length_app, Hacc. simpl.
  rewrite Nat.add_1_r, seqZ_S, map_app. simpl. f_equal.
  unfold Parse.chunk_id_of. simpl. rewrite update_metadata_chunk_id.
  do 3 f_equal. lia.
Qed.

Lemma parse_chunk_ids_witness :
  ∃ rec,
    @Parse.parse_file Parse.sample_unstructured Parse.no_int_of_str
      (py "2024-05-01T10:00:00") (py "docs/in/report.pdf")
      (py "unstructured") (py "hi_res") None Parse.sample_params = Ok rec
    ∧ map Parse.chunk_id_of (Parse.chunks rec)
      = [Some (Parse.PInt 1); Some (Parse.PInt 2); Some (Parse.PInt 3)]
    ∧ Parse.total_chunks rec = 3.
Proof.
  eexists. split; [vm_compute; reflexivity|].
  destruct (@parse_chunk_ids Parse.sample_unstructured Parse.no_int_of_str
    (py "2024-05-01T10:00:00") (py "docs/in/report.pdf")
    (py "unstructured") (py "hi_res") None Parse.sample_params _ eq_refl)
    as [H1 H2].
  split; [exact H1|exact H2].
Defined.

Lemma for_each_parse_contents `{Parse.Builtins} method elements st st' :
  for_each elements (Parse.parse_element method) st = Ok st' →
  map Parse.content st'.1
  = map Parse.content st.1
    ++ List.filter truthy (map (λ e, strip (Parse.elem_str e)) elements).
Proof.
  revert st. induction elements as [|e es IH]; intros st; simpl.
  - intros [= <-]. by rewrite app_nil_r.
  - destruct (Parse.parse_element method st e) as [st1| |] eqn:E; simpl;
      [|done|done].
    intros Hst. rewrite (IH _ Hst).
    apply parse_element_Ok in E as [[Hs ->]|(Hs & pn & -> & _)].
    + by rewrite Hs.
    + rewrite map_app, <- app_assoc. simpl.
      by destruct (strip (Parse.elem_str e)).
Qed.

(** X15. The chunks of a parsed file are the elements whose text is not
    blank, in the order the library returned them, each with its text
    trimmed: blank elements are skipped and no chunk has an empty content or
    leading or trailing whitespace. *)
Theorem parse_contents `{Parse.Unstructured, Parse.Builtins} now file_path
    backend method filename params rec :
  Parse.parse_file now file_path backend method filename params = Ok rec →
  ∃ partition elements,
    Parse.partition_pdf = Some partition
    ∧ partition file_path params = Ok elements
    ∧ map Parse.content (Parse.chunks rec)
      = List.filter truthy (map (λ e, strip (Parse.elem_str e)) elements)
    ∧ Forall (λ c, Parse.content c ≠ []
                   ∧ strip (Parse.content c) = Parse.content c)
        (Parse.chunks rec).
Proof.
  intros Hrec.
  apply parse_file_Ok_inv in Hrec
    as (partition & elements & st & _ & Hp & He & Hst & ->).
  exists partition, elements. split; [done|]. split; [done|].
  apply for_each_parse_contents in Hst as Hc. simpl in *.
  split; [done|].
  assert (Forall (λ s, s ≠ [] ∧ strip s = s) (map Parse.content st.1))
    as Hall.
  { rewrite Hc. apply Forall_forall. intros s Hs.
    apply list_elem_of_In, filter_In in Hs as [Hin Ht].
    apply in_map_iff in Hin as (e & <- & _).
    split; [by apply truthy_true|apply strip_idemp]. }
  by apply Forall_fmap in Hall.
Qed.

Lemma parse_contents_witness :
  ∃ rec,
    @Parse.parse_file Parse.sample_unstructured Parse.no_int_of_str
      (py "2024-05-01T10:00:00") (py "docs/in/report.pdf")
      (py "unstructured") (py "hi_res") None Parse.sample_params = Ok rec
    ∧ map Parse.content (Parse.chunks rec)
      = [py "Title"; py "Body"; py "Table"].
Proof.
  eexists. split; [vm_compute; reflexivity|].
  destruct (@parse_contents Parse.sample_unstructured Parse.no_int_of_str
    (py "2024-05-01T10:00:00") (py "docs/in/report.pdf")
    (py "unstructured") (py "hi_res") None Parse.sample_params _ eq_refl)
    as (partition & elements & Hp & He & Hc & _).
  injection Hp as <-. injection He as <-. exact Hc.
Defined.

Lemma foldr_max_spec n l :
  foldr Z.max n l ∈ n :: l ∧ Forall (λ x, x ≤ foldr Z.max n l) (n :: l).
Proof.
  induction l as [|a l [Hin Hle]]; simpl.
  - split; [by left|]. repeat constructor. lia.
  - inversion Hle as [|? ? Hn Hl]; subst. split.
    + destruct (Z.max_spec a (foldr Z.max n l)) as [[_ ->]|[_ ->]].
      * apply elem_of_cons in Hin as [->|Hin]; [by left|].
        by right; right.
      * by right; left.
    + constructor; [lia|]. constructor; [lia|].
      eapply Forall_impl; [exact Hl|]. simpl. lia.
Qed.

Lemma max_pages_spec (pages : gset Z) :
  pages ≠ ∅ →
  Parse.max_pages pages ∈ pages ∧ ∀ n, n ∈ pages → n ≤ Parse.max_pages pages.
Proof.
  intros Hne. unfold Parse.max_pages.
  destruct (elements pages) as [|n l] eqn:E.
  { by apply elements_empty_inv, leibniz_equiv in E. }
  destruct (foldr_max_spec n l) as [Hin Hle]. rewrite <- E in Hin, Hle.
  split; [by apply elem_of_elements|].
  intros m Hm. apply elem_of_elements in Hm.
  by apply (proj1 (Forall_forall _ _) Hle).
Qed.

Lemma max_pages_empty : Parse.max_pages ∅ = 0.
Proof. unfold Parse.max_pages. by rewrite elements_empty. Qed.

(** The set [pages] holds exactly the page numbers of the chunks made so
    far, and every chunk has [None] or an integer as its page number. *)
Lemma for_each_parse_pages `{Parse.Builtins} method elements st :
  for_each elements (Parse.parse_element method) ([], ∅) = Ok st →
  (∀ n, n ∈ st.2 ↔
        ∃ c, c ∈ st.1 ∧ Parse.page_number_of c = Some (Parse.PInt n))
  ∧ Forall (λ c, Parse.page_number_of c = Some Parse.PNone
                 ∨ ∃ n, Parse.page_number_of c = Some (Parse.PInt n)) st.1.
Proof.
  apply (for_each_invariant
    (λ st : list Parse.Chunk * gset Z,
       (∀ n, n ∈ st.2 ↔
             ∃ c, c ∈ st.1 ∧ Parse.page_number_of c = Some (Parse.PInt n))
       ∧ Forall (λ c, Parse.page_number_of c = Some Parse.PNone
                      ∨ ∃ n, Parse.page_number_of c = Some (Parse.PInt n))
           st.1)).
  - intros acc e acc' _ [Hset Hall] He.
    apply parse_element_Ok in He as [[_ ->]|(_ & pn & Hc & Hpn)]; [done|].
    rewrite Hc. split.
    + intros n. setoid_rewrite elem_of_app.
      setoid_rewrite list_elem_of_singleton.
      destruct Hpn as [[-> ->]|(m & -> & ->)].
      * rewrite Hset. split.
        -- intros (c & Hin & Hn). exists c. split; [by left|done].
        -- intros (c & [Hin| ->] & Hn); [by exists c|].
           unfold Parse.page_number_of in Hn. simpl in Hn.
           by rewrite update_metadata_page_number in Hn.
      * rewrite elem_of_union, elem_of_singleton, Hset. split.
        -- intros [->|(c & Hin & Hn)].
           ++ eexists. split; [by right|].
              unfold Parse.page_number_of. simpl.
              by rewrite update_metadata_page_number.
           ++ exists c. split; [by left|done].
        -- intros (c & [Hin| ->] & Hn); [right; by exists c|].
           unfold Parse.page_number_of in Hn. simpl in Hn.
           rewrite update_metadata_page_number in Hn. left. congruence.
    + apply Forall_app. split; [done|]. constructor; [|constructor].
      unfold Parse.page_number_of. simpl.
      rewrite update_metadata_page_number.
      destruct Hpn as [[-> _]|(m & -> & _)]; [by left|right; by eexists].
  - split; [|constructor]. intros n. split; [set_solver|].
    intros (c & Hin & _). by apply elem_of_nil in Hin.
Qed.

(** X16. [total_pages] of a parsed file is the largest page number among
    its chunks, and 0 when no chunk has a page number: the page number of
    every chunk is [None] or an integer not above [total_pages], and unless
    all are [None] some chunk is on page [total_pages]. *)
Theorem parse_total_pages `{Parse.Unstructured, Parse.Builtins} now file_path
    backend method filename params rec :
  Parse.parse_file now file_path backend method filename params = Ok rec →
  Forall (λ c, Parse.page_number_of c = Some Parse.PNone
               ∨ ∃ n, Parse.page_number_of c = Some (Parse.PInt n)
                      ∧ n ≤ Parse.total_pages rec) (Parse.chunks rec)
  ∧ ((∃ c, c ∈ Parse.chunks rec
           ∧ Parse.page_number_of c
             = Some (Parse.PInt (Parse.total_pages rec)))
     ∨ (Parse.total_pages rec = 0
        ∧ Forall (λ c, Parse.page_number_of c = Some Parse.PNone)
            (Parse.chunks rec))).
Proof.
  intros Hrec.
  apply parse_file_Ok_inv in Hrec
    as (partition & elements & st & _ & _ & _ & Hst & ->).
  apply for_each_parse_pages in Hst as [Hset Hall]. simpl.
  rewrite Forall_forall in Hall.
  destruct (decide (st.2 = ∅)) as [He|Hne].
  - rewrite He, max_pages_empty in *.
    assert (∀ c, c ∈ st.1 → Parse.page_number_of c = Some Parse.PNone)
      as Hnone.
    { intros c Hin. destruct (Hall c Hin) as [Hc|[n Hc]]; [done|].
      exfalso. apply (not_elem_of_empty (C := gset Z) n), Hset.
      by exists c. }
    split.
    + apply Forall_forall. intros c Hin. left. by apply Hnone.
    + right. split; [done|]. by apply Forall_forall.
  - destruct (max_pages_spec _ Hne) as [Hmax Hle]. split.
    + apply Forall_forall. intros c Hin.
      destruct (Hall c Hin) as [Hc|[n Hc]]; [by left|]. right.
      exists n. split; [done|]. apply Hle, Hset. by exists c.
    + left. by apply Hset.
Qed.

Lemma parse_total_pages_witness :
  ∃ rec,
    @Parse.parse_file Parse.sample_unstructured Parse.no_int_of_str
      (py "2024-05-01T10:00:00") (py "docs/in/report.pdf")
      (py "unstructured") (py "hi_res") None Parse.sample_params = Ok rec
    ∧ Parse.total_pages rec = 5
    ∧ map Parse.page_number_of (Parse.chunks rec)
      = [Some (Parse.PInt 2); Some Parse.PNone; Some (Parse.PInt 5)].
Proof.
  eexists. split; [vm_compute; reflexivity|].
  pose proof (@parse_total_pages Parse.sample_unstructured
    Parse.no_int_of_str (py "2024-05-01T10:00:00") (py "docs/in/report.pdf")
    (py "unstructured") (py "hi_res") None Parse.sample_params _ eq_refl)
    as [_ _].
  split; vm_compute; reflexivity.
Defined.

(** X17. [parse_file] accepts the backend "unstructured" only: any other
    backend raises "Unsupported parsing backend: <backend>" without
    touching the library; and with that backend a failing import of the
    library raises a [ValueError] that names the missing dependency. *)
Theorem parse_backend_errors `{Parse.Unstructured, Parse.Builtins} now
    file_path backend method filename params :
  (backend ≠ py "unstructured" →
   Parse.parse_file now file_path backend method filename params
   = Raise (ValueError (py "Unsupported parsing backend: " ++ backend)))
  ∧ (backend = py "unstructured" → Parse.partition_pdf = None →
     Parse.parse_file now file_path backend method filename params
     = Raise (ValueError (py "Unstructured parsing requested but dependency is missing. Install `unstructured` and its PDF extras."))).
Proof.
  unfold Parse.parse_file, Parse._parse_with_unstructured. split.
  - intros Hb. by destruct (decide (backend = py "unstructured")).
  - intros -> Hp. rewrite Hp.
    by destruct (decide (py "unstructured" = py "unstructured")).
Qed.

Lemma parse_backend_errors_witness :
  py "docling" ≠ py "unstructured"
  ∧ @Parse.parse_file Parse.sample_unstructured Parse.no_int_of_str
      (py "2024-05-01T10:00:00") (py "docs/in/report.pdf") (py "docling")
      (py "hi_res") None Parse.sample_params
    = Raise (ValueError (py "Unsupported parsing backend: docling")).
Proof.
  assert (py "docling" ≠ py "unstructured") as Hb by py_neq.
  split; [exact Hb|].
  exact (proj1 (@parse_backend_errors Parse.sample_unstructured
    Parse.no_int_of_str (py "2024-05-01T10:00:00") (py "docs/in/report.pdf")
    (py "docling") (py "hi_res") None Parse.sample_params) Hb).
Defined.

(** X18. The metadata of every chunk of a parsed file can be written as
    JSON: each of its values is one [json.dumps] accepts (a value it
    refuses has been replaced by its [str]); the key [_known_field_names]
    is never present; and [parse_method] is the method of the call. *)
Theorem parse_metadata_serializable `{Parse.Unstructured, Parse.Builtins} now
    file_path backend method filename params rec :
  Parse.parse_file now file_path backend method filename params = Ok rec →
  Forall (λ c,
            map_Forall (λ _ v, Parse.json_serializable v = true)
              (Parse.metadata c)
            ∧ Parse.metadata c !! py "_known_field_names" = None
            ∧ Parse.metadata c !! py "parse_method"
              = Some (Parse.PStr method))
    (Parse.chunks rec).
Proof.
  intros Hrec.
  apply parse_file_Ok_inv in Hrec
    as (partition & elements & st & _ & _ & _ & Hst & ->).
  simpl. revert Hst.
  apply (for_each_invariant
    (λ st : list Parse.Chunk * gset Z,
       Forall (λ c,
                 map_Forall (λ _ v, Parse.json_serializable v = true)
                   (Parse.metadata c)
                 ∧ Parse.metadata c !! py "_known_field_names" = None
                 ∧ Parse.metadata c !! py "parse_method"
                   = Some (Parse.PStr method)) st.1)); [|constructor].
  intros acc e acc' _ Hacc He.
  apply parse_element_Ok in He as [[_ ->]|(_ & pn & -> & Hpn)]; [done|].
  apply Forall_app. split; [done|]. constructor; [|constructor]. simpl.
  split; [|split].
  - unfold Parse.update_metadata.
    repeat (apply map_Forall_insert_2; [|]);
      try apply clean_metadata_serializable; try done.
    by destruct Hpn as [[-> _]|(n & -> & _)].
  - rewrite update_metadata_other; [apply clean_metadata_known_field_names|].
    intros Hin. repeat (apply elem_of_cons in Hin as [Hin|Hin];
      [by vm_compute in Hin|]). by apply elem_of_nil in Hin.
  - apply update_metadata_parse_method.
Qed.

Lemma parse_metadata_serializable_witness :
  ∃ rec,
    @Parse.parse_file Parse.sample_unstructured Parse.no_int_of_str
      (py "2024-05-01T10:00:00") (py "docs/in/report.pdf")
      (py "unstructured") (py "hi_res") None Parse.sample_params = Ok rec
    ∧ Forall (λ c, Parse.metadata c !! py "_known_field_names" = None)
        (Parse.chunks rec).
Proof.
  eexists. split; [vm_compute; reflexivity|].
  eapply Forall_impl.
  - exact (@parse_metadata_serializable Parse.sample_unstructured
      Parse.no_int_of_str (py "2024-05-01T10:00:00")
      (py "docs/in/report.pdf") (py "unstructured") (py "hi_res") None
      Parse.sample_params _ eq_refl).
  - intros c (_ & Hk & _). exact Hk.
Defined.

(** ** Paths *)

Lemma basename_from_spec cur p :
  47%N ∉ cur →
  (47%N ∉ basename_from cur p)
  ∧ ∃ d, cur ++ p = d ++ basename_from cur p
         ∧ (d = [] ∨ last d = Some 47%N).
Proof.
  revert cur. induction p as [|c p IH]; intros cur Hcur; simpl.
  - split; [done|]. exists []. split; [by rewrite app_nil_r|by left].
  - destruct (N.eqb_spec c 47) as [->|Hc].
    + destruct (IH []) as (Hno & d & Hd & Hlast); [apply not_elem_of_nil|].
      split; [done|]. exists (cur ++ 47%N :: d). simpl in Hd. split.
      * rewrite <- app_assoc. simpl. by rewrite <- Hd.
      * right. destruct Hlast as [->|Hl].
        -- by rewrite last_snoc.
        -- rewrite last_app, last_cons, Hl. done.
    + destruct (IH (cur ++ [c])) as (Hno & d & Hd & Hlast).
      { rewrite elem_of_app, list_elem_of_singleton. intros [?|?]; congruence. }
      split; [done|]. exists d. split; [|done].
      by rewrite <- Hd, <- app_assoc.
Qed.

(** [basename p] holds no slash, and [p] is a directory part, empty or
    ending in a slash, followed by [basename p]. *)
Lemma basename_spec p :
  (47%N ∉ basename p)
  ∧ ∃ d, p = d ++ basename p ∧ (d = [] ∨ last d = Some 47%N).
Proof. apply (basename_from_spec [] p), not_elem_of_nil. Qed.

Lemma basename_from_no_slash cur name :
  47%N ∉ name → basename_from cur name = cur ++ name.
Proof.
  revert cur. induction name as [|c name IH]; intros cur Hn; simpl.
  - by rewrite app_nil_r.
  - apply not_elem_of_cons in Hn as [Hc Hn].
    destruct (N.eqb_spec c 47) as [->|_]; [done|].
    by rewrite IH, <- app_assoc.
Qed.

Lemma basename_after_slash d name :
  47%N ∉ name → basename (d ++ 47%N :: name) = name.
Proof.
  intros Hn. unfold basename. generalize (@nil N).
  induction d as [|c d IH]; intros cur; simpl.
  - by apply basename_from_no_slash.
  - destruct (c =? 47)%N; apply IH.
Qed.

(** X19. The [filename] of a parsed file is the one given when it is not
    empty; without one (or with the empty string) it is the part of
    [file_path] after its last slash: it holds no slash, and [file_path] is
    a directory part, empty or ending in a slash, followed by it. *)
Theorem parse_filename `{Parse.Unstructured, Parse.Builtins} now file_path
    backend method filename params rec :
  Parse.parse_file now file_path backend method filename params = Ok rec →
  (∀ f, filename = Some f → f ≠ [] → Parse.filename rec = f)
  ∧ (filename = None ∨ filename = Some [] →
     (47%N ∉ Parse.filename rec)
     ∧ ∃ d, file_path = d ++ Parse.filename rec
            ∧ (d = [] ∨ last d = Some 47%N)).
Proof.
  intros Hrec.
  apply parse_file_Ok_inv in Hrec as (? & ? & ? & _ & _ & _ & _ & ->).
  simpl. split.
  - intros f -> Hf. by destruct f.
  - intros [-> | ->]; apply basename_spec.
Qed.

Lemma parse_filename_witness :
  ∃ rec,
    @Parse.parse_file Parse.sample_unstructured Parse.no_int_of_str
      (py "2024-05-01T10:00:00") (py "docs/in/report.pdf")
      (py "unstructured") (py "hi_res") (Some []) Parse.sample_params = Ok rec
    ∧ Parse.filename rec = py "report.pdf"
    ∧ (47%N ∉ Parse.filename rec).
Proof.
  eexists. split; [vm_compute; reflexivity|]. split; [reflexivity|].
  exact (proj1 (proj2 (@parse_filename Parse.sample_unstructured
    Parse.no_int_of_str (py "2024-05-01T10:00:00") (py "docs/in/report.pdf")
    (py "unstructured") (py "hi_res") (Some []) Parse.sample_params _
    eq_refl) (or_intror eq_refl))).
Defined.

(** * Properties of the search service *)

(** X20. The file [save_search_results] writes is a direct child of the
    results directory, whatever the collection id: when the time stamp
    holds no slash (it is made of digits), the returned path is
    "04-search-results/" followed by the name "search_<base>_<stamp>.json",
    where <base> is the collection id after its last slash; the name holds
    no slash, so it is the [basename] of the path, and the file was written
    at that path. *)
Theorem saved_path_in_results_dir {R} `{Search.JsonFiles R} stamp iso query
    collection_id (results : R) path :
  47%N ∉ stamp →
  Search.save_search_results stamp iso query collection_id results = Ok path →
  let name :=
    py "search_" ++ basename collection_id ++ py "_" ++ stamp ++ py ".json" in
  path = py "04-search-results/" ++ name
  ∧ (47%N ∉ name)
  ∧ basename path = name
  ∧ Search.write_json path
      {| Search.query := query;
         Search.collection_id := collection_id;
         Search.timestamp := iso;
         Search.results := results |} = Ok tt.
Proof.
  intros Hstamp Hsave name. unfold Search.save_search_results in Hsave.
  assert (path_join Search.search_results_dir name
          = py "04-search-results/" ++ name) as Hjoin by reflexivity.
  cbn zeta in Hsave. fold name in Hsave. rewrite Hjoin in Hsave.
  destruct (Search.write_json _ _) as [[]| |] eqn:Ew; simpl in Hsave;
    [|done|done].
  injection Hsave as <-.
  assert (47%N ∉ name) as Hname.
  { unfold name. rewrite !elem_of_app.
    destruct (basename_spec collection_id) as [Hbase _].
    intros [Hin|[Hin|[Hin|[Hin|Hin]]]]; try done;
      vm_compute in Hin;
      repeat (apply elem_of_cons in Hin as [Hin|Hin]; [discriminate|]);
      by apply elem_of_nil in Hin. }
  split; [done|]. split; [done|]. split; [|done].
  exact (basename_after_slash (py "04-search-results") name Hname).
Qed.

Lemma saved_path_in_results_dir_witness :
  (47%N ∉ py "20240501100000")
  ∧ @Search.save_search_results unit (Search.accepting_files unit)
      (py "20240501100000") (py "2024-05-01T10:00:00") (py "what is rag")
      (py "../../etc/passwd") tt
    = Ok (py "04-search-results/search_passwd_20240501100000.json").
Proof.
  assert (47%N ∉ py "20240501100000") as Hs.
  { intros Hin. vm_compute in Hin.
    repeat (apply elem_of_cons in Hin as [Hin|Hin]; [discriminate|]).
    by apply elem_of_nil in Hin. }
  split; [exact Hs|].
  pose proof (@saved_path_in_results_dir unit (Search.accepting_files unit)
    (py "20240501100000") (py "2024-05-01T10:00:00") (py "what is rag")
    (py "../../etc/passwd") tt _ Hs eq_refl) as [_ _].
  reflexivity.
Defined.
